(** * generateDocumentationIndex.py: the documentation index generator

    A shallow embedding of [.github/scripts/generateDocumentationIndex.py]
    and the properties of the index it writes.

    Python [str] values are [string]s (sequences of 8-bit characters; the
    byte-wise lexicographic order of UTF-8 agrees with the code point order
    Python compares by).  The run is that of a POSIX platform: the [os.path]
    functions are those of [posixpath] and [os.sep] is ["/"]; only
    [_generateLink], which takes [os.sep], [os.path.basename] and
    [os.path.splitext] and nothing else from the platform, is given for any
    platform.  Text files are encoded as UTF-8, strictly, and the standard
    streams pass every byte of a name through, as in Python's UTF-8 mode. *)

From Stdlib Require Import ZArith Ascii.
From stdpp Require Import gmap strings list sorting.

Local Open Scope Z_scope.
Local Open Scope stdpp_scope.

(** ** Python string methods *)

Module Str.

(** [s.endswith(suffix)]. *)
Fixpoint endswith (s suffix : string) : bool :=
  String.eqb s suffix ||
  match s with
  | EmptyString => false
  | String _ s' => endswith s' suffix
  end.

(** [s.startswith(c)] for a one-character [c]. *)
Definition startswith_char (s : string) (c : ascii) : bool :=
  match s with
  | EmptyString => false
  | String a _ => Ascii.eqb a c
  end.

(** [s.split(sep)] for a one-character separator: never an empty list. *)
Fixpoint split (sep : ascii) (s : string) : list string :=
  match s with
  | EmptyString => [EmptyString]
  | String a s' =>
      if Ascii.eqb a sep then EmptyString :: split sep s'
      else match split sep s' with
           | [] => [String a EmptyString]
           | w :: ws => String a w :: ws
           end
  end.

(** [sep.join(l)]. *)
Fixpoint join (sep : string) (l : list string) : string :=
  match l with
  | [] => EmptyString
  | [x] => x
  | x :: l' => x +:+ sep +:+ join sep l'
  end.

(** [s.replace(old, new)] for a one-character [old]. *)
Fixpoint replace (old : ascii) (new : string) (s : string) : string :=
  match s with
  | EmptyString => EmptyString
  | String a s' =>
      if Ascii.eqb a old then new +:+ replace old new s'
      else String a (replace old new s')
  end.

(** [s.rfind(c)], counted from position [i] of the whole string: the index
    of the last occurrence of [c], or [-1]. *)
Fixpoint rfind_from (c : ascii) (s : string) (i : Z) : Z :=
  match s with
  | EmptyString => -1
  | String a s' =>
      let r := rfind_from c s' (i + 1) in
      if 0 <=? r then r else if Ascii.eqb a c then i else -1
  end.

Definition rfind (c : ascii) (s : string) : Z := rfind_from c s 0.

(** The slices [s[:i]] and [s[i:]] for [0 <= i]. *)
Definition slice_to (s : string) (i : Z) : string :=
  String.substring 0 (Z.to_nat i) s.

Definition slice_from (s : string) (i : Z) : string :=
  String.substring (Z.to_nat i) (String.length s - Z.to_nat i) s.

(** [c * n]. *)
Fixpoint repeat (c : ascii) (n : nat) : string :=
  match n with
  | O => EmptyString
  | S n' => String c (repeat c n')
  end.

(** Whether the byte [c] lies between [lo] and [hi]. *)
Definition between (lo hi : N) (c : ascii) : bool :=
  (lo <=? N_of_ascii c)%N && (N_of_ascii c <=? hi)%N.

(** The first two bytes of a well-formed sequence of three bytes, and of
    four. *)
Definition lead3 (a b : ascii) : bool :=
  between 0xE0 0xE0 a && between 0xA0 0xBF b
  || between 0xE1 0xEC a && between 0x80 0xBF b
  || between 0xED 0xED a && between 0x80 0x9F b
  || between 0xEE 0xEF a && between 0x80 0xBF b.

Definition lead4 (a b : ascii) : bool :=
  between 0xF0 0xF0 a && between 0x90 0xBF b
  || between 0xF1 0xF3 a && between 0x80 0xBF b
  || between 0xF4 0xF4 a && between 0x80 0x8F b.

(** Whether [s.encode('utf-8')] succeeds, that is, whether the bytes of
    [s] are well-formed UTF-8.  A file name with a byte that cannot be
    decoded reaches Python with a lone surrogate in the place of that byte
    (error handler [surrogateescape]), and a lone surrogate cannot be
    encoded.  The names stand between ASCII characters in every text the
    program builds, so the text is well formed exactly when each name in it
    is. *)
Fixpoint encodable (s : string) : bool :=
  match s with
  | EmptyString => true
  | String a s1 =>
      if between 0x00 0x7F a then encodable s1
      else
        match s1 with
        | EmptyString => false
        | String b s2 =>
            if between 0xC2 0xDF a then between 0x80 0xBF b && encodable s2
            else
              match s2 with
              | EmptyString => false
              | String c s3 =>
                  if lead3 a b then between 0x80 0xBF c && encodable s3
                  else
                    match s3 with
                    | EmptyString => false
                    | String d s4 =>
                        lead4 a b && between 0x80 0xBF c
                        && between 0x80 0xBF d && encodable s4
                    end
              end
        end
  end.

End Str.

(** ** [posixpath] *)

Module Path.

Definition sep : ascii := "/"%char.
Definition curdir : string := ".".
Definition pardir : string := "..".
Definition extsep : ascii := "."%char.

(** [posixpath.join(a, *p)]. *)
Definition join_step (path b : string) : string :=
  if Str.startswith_char b sep then b
  else if String.eqb path "" || Str.endswith path (String sep "") then path +:+ b
  else path +:+ String sep "" +:+ b.

Definition join (a : string) (p : list string) : string :=
  fold_left join_step p a.

(** [posixpath.isabs]. *)
Definition isabs (s : string) : bool := Str.startswith_char s sep.

(** [posixpath.basename]: [p[p.rfind('/') + 1:]]. *)
Definition basename (p : string) : string :=
  Str.slice_from p (Str.rfind sep p + 1).

(** The loop of [genericpath._splitext] that skips leading dots:
    [n] positions from [filenameIndex] up to [dotIndex] remain. *)
Fixpoint splitext_scan (p : string) (dotIndex filenameIndex : Z) (n : nat)
  : string * string :=
  match n with
  | O => (p, "")
  | S n' =>
      if negb (String.eqb
                 (String.substring (Z.to_nat filenameIndex) 1 p)
                 (String extsep ""))
      then (Str.slice_to p dotIndex, Str.slice_from p dotIndex)
      else splitext_scan p dotIndex (filenameIndex + 1) n'
  end.

(** [posixpath.splitext]. *)
Definition splitext (p : string) : string * string :=
  let sepIndex := Str.rfind sep p in
  let dotIndex := Str.rfind extsep p in
  if sepIndex <? dotIndex then
    let filenameIndex := sepIndex + 1 in
    splitext_scan p dotIndex filenameIndex (Z.to_nat (dotIndex - filenameIndex))
  else (p, "").

(** One round of the loop of [posixpath.normpath] over the components. *)
Definition normpath_step (initial_slashes : nat) (new_comps : list string)
    (comp : string) : list string :=
  if bool_decide (comp = "" ∨ comp = ".") then new_comps
  else if bool_decide (comp ≠ ".."
                       ∨ (initial_slashes = 0%nat ∧ new_comps = [])
                       ∨ (new_comps ≠ [] ∧ last new_comps = Some ".."))
  then new_comps ++ [comp]
  else removelast new_comps.

Definition normpath_slashes (path : string) : nat :=
  if Str.startswith_char path sep then
    match path with
    | String _ (String b EmptyString) =>
        if Ascii.eqb b sep then 2%nat else 1%nat
    | String _ (String b (String c _)) =>
        if Ascii.eqb b sep && negb (Ascii.eqb c sep) then 2%nat else 1%nat
    | _ => 1%nat
    end
  else 0%nat.

Definition normpath_comps (path : string) : list string :=
  fold_left (normpath_step (normpath_slashes path)) (Str.split sep path) [].

(** [posixpath.normpath]. *)
Definition normpath (path : string) : string :=
  if String.eqb path "" then curdir
  else
    let r := Str.repeat sep (normpath_slashes path)
             +:+ Str.join (String sep "") (normpath_comps path) in
    if String.eqb r "" then curdir else r.

(** [posixpath.abspath], in a process whose working directory is [cwd]. *)
Definition abspath (cwd path : string) : string :=
  if isabs path then normpath path else normpath (join cwd [path]).

(** Length of [os.path.commonprefix] of two lists. *)
Fixpoint commonprefix_len (l1 l2 : list string) : nat :=
  match l1, l2 with
  | x :: l1', y :: l2' =>
      if String.eqb x y then S (commonprefix_len l1' l2') else O
  | _, _ => O
  end.

(** [posixpath.relpath(path, start)].  Python raises [ValueError] for an
    empty [path]; the generator only passes directories yielded by
    [os.walk], which are never empty when the root exists. *)
Definition relpath (cwd path start : string) : string :=
  let start_list := filter (λ x, x ≠ "") (Str.split sep (abspath cwd start)) in
  let path_list := filter (λ x, x ≠ "") (Str.split sep (abspath cwd path)) in
  let i := commonprefix_len start_list path_list in
  let rel_list := replicate (length start_list - i) pardir ++ drop i path_list in
  match rel_list with
  | [] => curdir
  | a :: p => join a p
  end.

End Path.

(** What [_generateLink] takes from the platform: [os.sep],
    [os.path.basename] and [os.path.splitext]. *)
Class Os : Type := {
  os_sep : ascii;
  os_path_basename : string → string;
  os_path_splitext : string → string * string
}.

(** On a POSIX platform [os.path] is [posixpath]. *)
Global Instance posix : Os := {|
  os_sep := Path.sep;
  os_path_basename := Path.basename;
  os_path_splitext := Path.splitext
|}.

(** ** The file system and the process *)

(** A directory as [os.scandir] lists it: its subdirectories and its files,
    each in listing order. *)
#[warnings="-register-all"]
Inductive Tree : Type :=
| Node (subdirs : list (string * Tree)) (files : list string).

Definition subdirs (t : Tree) : list (string * Tree) :=
  match t with Node ds _ => ds end.
Definition files (t : Tree) : list string :=
  match t with Node _ fs => fs end.

(** The exceptions the run can end with: [open] on a directory, and
    [f.write] on a text that cannot be encoded. *)
Inductive Exception : Type :=
| IsADirectoryError (filename : string)
| UnicodeEncodeError.

(** What a run leaves behind: what the program prints on the two output
    streams, the exit status, the files written, each with its path and
    data, and the exception no one caught, if the run ends with one: the
    interpreter then prints its traceback on the standard error, after
    [stderr], and the exit status is 1. *)
Record Outcome : Type := MkOutcome {
  stdout : string;
  stderr : string;
  exit_status : Z;
  written : list (string * string);
  uncaught : option Exception
}.

(** ** The generator *)

(** The run as a sequence of steps: a directory is processed, a heading is
    added for a key, a link is added for a file. *)
Inductive Event : Type :=
| Visit (relativeDirectory : string)
| Heading (key : string) (level : nat) (part : string)
| Link (file : string).

Global Instance Event_eq_dec : EqDecision Event.
Proof. solve_decision. Defined.

(** The fields of [IndexGenerator].  [trace] is not a field of the Python
    object: it logs the steps of the run in order and is never read. *)
Record IndexGenerator : Type := MkGen {
  rootDirectory : string;
  outputFile : string;
  contents : string;
  printed : gset string;
  trace : list Event
}.

Module IndexGenerator.

Definition emit (text : string) (e : Event) (self : IndexGenerator)
  : IndexGenerator :=
  {| rootDirectory := rootDirectory self;
     outputFile := outputFile self;
     contents := contents self +:+ text;
     printed := printed self;
     trace := trace self ++ [e] |}.

Definition mark (key : string) (self : IndexGenerator) : IndexGenerator :=
  {| rootDirectory := rootDirectory self;
     outputFile := outputFile self;
     contents := contents self;
     printed := {[key]} ∪ printed self;
     trace := trace self |}.

(** [__init__]: the root must exist ([exists_] is what [os.path.exists]
    answers); otherwise a message is printed and the process exits. *)
Definition __init__ (exists_ : bool) (rootDirectory outputFile : string)
  : Outcome + IndexGenerator :=
  if negb exists_ then
    inl {| stdout := "Error: The specified directory '" +:+ rootDirectory
                     +:+ "' does not exist." +:+ String "010" "";
           stderr := "";
           exit_status := 1;
           written := [];
           uncaught := None |}
  else
    inr {| rootDirectory := rootDirectory;
           outputFile := outputFile;
           contents := "# " +:+ Path.basename (Path.normpath rootDirectory)
                       +:+ String "010" "";
           printed := ∅;
           trace := [] |}.

(** [_filterDirectory]: the two lists as they are after the in-place
    assignments, and the returned flag. *)
Definition _filterDirectory (subdirectories files : list string)
  : list string * list string * bool :=
  let subdirectories' :=
    filter (λ subdirectory, subdirectory ∉ [".git"; ".github"]) subdirectories in
  let files' :=
    filter (λ file, Str.endswith file ".md" = true ∧ file ≠ "README.md") files in
  (subdirectories', files', bool_decide (files' ≠ [])).

(** [_generateLink], on the platform [os]. *)
Definition _generateLink `{os : Os} (file : string) : string :=
  let name := os_path_basename file in
  let title := fst (os_path_splitext name) in
  let link := Str.replace os_sep "/" file in
  "- [" +:+ title +:+ "](" +:+ link +:+ ")".

(** The loop of [_addDirectoryHeadings], from index [i] on. *)
Fixpoint _addDirectoryHeadings_loop (i : nat) (accumulated parts : list string)
    (self : IndexGenerator) : IndexGenerator :=
  match parts with
  | [] => self
  | part :: parts' =>
      let accumulated := accumulated ++ [part] in
      let key := Str.join "/" accumulated in
      let self :=
        if bool_decide (key ∉ printed self) then
          let headingLevel := Str.repeat "#" (i + 2) in
          mark key
            (emit (String "010" "" +:+ headingLevel +:+ " " +:+ part
                   +:+ String "010" "")
                  (Heading key (i + 2) part) self)
        else self in
      _addDirectoryHeadings_loop (S i) accumulated parts' self
  end.

Definition _addDirectoryHeadings (relativeDirectory : string)
    (self : IndexGenerator) : IndexGenerator :=
  let parts := Str.split Path.sep relativeDirectory in
  _addDirectoryHeadings_loop 0 [] parts self.

(** [sorted(files)]: Python sorts strings by their lexicographic order. *)
Definition sorted (l : list string) : list string :=
  merge_sort String.le l.

(** [_processDirectory], in a process whose working directory is [cwd]. *)
Definition _processDirectory (cwd : string) (directory : string)
    (files : list string) (self : IndexGenerator) : IndexGenerator :=
  let relativeDirectory := Path.relpath cwd directory (rootDirectory self) in
  let self := {| rootDirectory := rootDirectory self;
                 outputFile := outputFile self;
                 contents := contents self;
                 printed := printed self;
                 trace := trace self ++ [Visit relativeDirectory] |} in
  let self :=
    if bool_decide (relativeDirectory ≠ ".")
    then _addDirectoryHeadings relativeDirectory self
    else self in
  fold_left
    (λ self file,
       let file :=
         if bool_decide (relativeDirectory ≠ ".")
         then Path.join relativeDirectory [file]
         else file in
       emit (_generateLink file +:+ String "010" "") (Link file) self)
    (sorted files) self.

(** The loop of [generate] over [os.walk(top)]: the body runs on the
    directory itself, then the walk goes down, in order, into each name
    left in the subdirectory list, joined to [top]. *)
Fixpoint walk (cwd : string) (top : string) (t : Tree)
    (self : IndexGenerator) : IndexGenerator :=
  match t with
  | Node dirs nondirs =>
      let '(subdirectories, files, ok) :=
        _filterDirectory (map fst dirs) nondirs in
      let self :=
        if ok then _processDirectory cwd top files self else self in
      fold_left
        (λ self dirname,
           (fix scandir (entries : list (string * Tree)) : IndexGenerator :=
              match entries with
              | [] => self
              | (name, sub) :: entries' =>
                  if String.eqb name dirname
                  then walk cwd (Path.join top [dirname]) sub self
                  else scandir entries'
              end) dirs)
        subdirectories self
  end.

(** [_writeToFile]: the file to open for writing and the text to write
    to it. *)
Definition _writeToFile (self : IndexGenerator) : string * string :=
  (outputFile self,
   contents self
   +:+ String "010" "" +:+ "---" +:+ String "010" "" +:+ String "010" ""
   +:+ "*This documentation index was automatically generated.*"
   +:+ String "010" "").

(** The state at the end of the loop of [generate]. *)
Definition generated (cwd : string) (t : Tree) (self : IndexGenerator)
  : IndexGenerator :=
  walk cwd (rootDirectory self) t self.

(** [generate]. *)
Definition generate (cwd : string) (t : Tree) (self : IndexGenerator)
  : string * string :=
  _writeToFile (generated cwd t self).

End IndexGenerator.

(** The script run as a program, in a process whose working directory is
    [cwd]: [directory] is the positional argument, if one is given, and [fs]
    the directory tree at the root, if the root exists.  The file the run
    writes is the [README.md] of the root.  [open] raises when that name is
    a directory of the root, and nothing is written.  Otherwise [open]
    creates the file or empties it, and [f.write] raises when the text
    cannot be encoded, which leaves the file empty.  No exception is caught:
    the run ends there, with status 1. *)
Definition main (cwd : string) (fs : option Tree) (directory : option string)
  : Outcome :=
  let rootDirectory := Path.abspath cwd (default "." directory) in
  let outputFile := Path.join rootDirectory ["README.md"] in
  match fs with
  | None =>
      match IndexGenerator.__init__ false rootDirectory outputFile with
      | inl failure => failure
      | inr _ =>
          {| stdout := ""; stderr := ""; exit_status := 0; written := [];
             uncaught := None |}
      end
  | Some t =>
      match IndexGenerator.__init__ true rootDirectory outputFile with
      | inl failure => failure
      | inr generator =>
          let '(file, data) := IndexGenerator.generate cwd t generator in
          if bool_decide ("README.md" ∈ map fst (subdirs t)) then
            {| stdout := ""; stderr := ""; exit_status := 1; written := [];
               uncaught := Some (IsADirectoryError file) |}
          else if negb (Str.encodable data) then
            {| stdout := ""; stderr := ""; exit_status := 1;
               written := [(file, "")];
               uncaught := Some UnicodeEncodeError |}
          else
            {| stdout := ""; stderr := ""; exit_status := 0;
               written := [(file, data)];
               uncaught := None |}
      end
  end.

(** * Specification vocabulary *)

(** [c in s]. *)
Fixpoint has_char (c : ascii) (s : string) : bool :=
  match s with
  | EmptyString => false
  | String a s' => Ascii.eqb a c || has_char c s'
  end.

(** The names a directory listing can hold: not empty, not ["."] or [".."],
    and without a separator. *)
Definition wf_name (n : string) : Prop :=
  n ≠ "" ∧ n ≠ "." ∧ n ≠ ".." ∧ has_char "/" n = false.

Global Instance wf_name_dec n : Decision (wf_name n).
Proof. unfold wf_name. apply _. Defined.

(** A directory tree of a real file system: in every directory the names
    are well formed and pairwise distinct. *)
Fixpoint wf_tree (t : Tree) : bool :=
  match t with
  | Node dirs nondirs =>
      bool_decide (NoDup (map fst dirs ++ nondirs))
      && bool_decide (Forall wf_name (map fst dirs ++ nondirs))
      && forallb (λ entry, wf_tree (snd entry)) dirs
  end.

(** The directories [generate] processes, in the order of the walk: for
    each one its path from the root, as a list of names, and the files kept
    by the filter. *)
Fixpoint visits (segs : list string) (t : Tree)
  : list (list string * list string) :=
  match t with
  | Node dirs nondirs =>
      let files :=
        filter (λ file, Str.endswith file ".md" = true ∧ file ≠ "README.md")
               nondirs in
      (if bool_decide (files ≠ []) then [(segs, files)] else [])
      ++ flat_map
           (λ entry,
              if bool_decide (fst entry ∉ [".git"; ".github"])
              then visits (segs ++ [fst entry]) (snd entry)
              else [])
           dirs
  end.

(** The relative directory of a path: ["."] for the root itself. *)
Definition rel_of (segs : list string) : string :=
  match segs with
  | [] => "."
  | _ => Str.join "/" segs
  end.

(** The non-empty prefixes of a path, shortest first, each after [acc]. *)
Fixpoint prefixes_from (acc parts : list string) : list (list string) :=
  match parts with
  | [] => []
  | part :: parts' => (acc ++ [part]) :: prefixes_from (acc ++ [part]) parts'
  end.

Definition prefixes (segs : list string) : list (list string) :=
  prefixes_from [] segs.

(** The heading of the directory at path [p]. *)
Definition heading_of (p : list string) : Event :=
  Heading (Str.join "/" p) (length p + 1) (List.last p "").

(** The link to the file [file] of the directory at path [segs]. *)
Definition link_of (segs : list string) (file : string) : Event :=
  Link (Str.join "/" (segs ++ [file])).

(** The steps of processing one directory, when the directories at the paths
    [seen] have their heading already. *)
Definition block (seen : list (list string)) (segs : list string)
    (files : list string) : list Event :=
  Visit (rel_of segs)
  :: (heading_of <$> filter (λ p, p ∉ seen) (prefixes segs))
  ++ (link_of segs <$> IndexGenerator.sorted files).

Fixpoint expected (seen : list (list string))
    (vs : list (list string * list string)) : list Event :=
  match vs with
  | [] => []
  | (segs, files) :: vs' =>
      block seen segs files ++ expected (prefixes segs ++ seen) vs'
  end.

(** The text a step adds to the index. *)
Definition render_event (e : Event) : string :=
  match e with
  | Visit _ => ""
  | Heading _ level part =>
      String "010" "" +:+ Str.repeat "#" level +:+ " " +:+ part
      +:+ String "010" ""
  | Link file => IndexGenerator._generateLink file +:+ String "010" ""
  end.

Definition render (tr : list Event) : string :=
  foldr (λ e s, render_event e +:+ s) "" tr.

(** One round of the loop of [generate], on the directory at path [fst v]
    with the kept files [snd v]. *)
Definition visit_step (cwd root : string) (self : IndexGenerator)
    (v : list string * list string) : IndexGenerator :=
  IndexGenerator._processDirectory cwd (Path.join root (fst v)) (snd v) self.

(** The argument [abspath] hands to [normpath]. *)
Definition abs_arg (cwd p : string) : string :=
  if Path.isabs p then p else Path.join_step cwd p.

(** What [posixpath.join] puts between [path] and a relative part. *)
Definition glue (path : string) : string :=
  if String.eqb path "" || Str.endswith path "/" then "" else "/".

(** The files the index is to list, each by its path from the root: the
    files named [*.md], other than [README.md], outside the directories
    named [.git] or [.github]. *)
Inductive listed : Tree → list string → Prop :=
| listed_file dirs nondirs file :
    file ∈ nondirs →
    Str.endswith file ".md" = true →
    file ≠ "README.md" →
    listed (Node dirs nondirs) [file]
| listed_sub dirs nondirs name sub p :
    (name, sub) ∈ dirs →
    name ∉ [".git"; ".github"] →
    listed sub p →
    listed (Node dirs nondirs) (name :: p).

(** A processed directory whose names are all well formed. *)
Definition wf_visit (v : list string * list string) : Prop :=
  Forall wf_name (fst v) ∧ Forall wf_name (snd v).

(** The paths of the kept files of a list of processed directories. *)
Definition all_paths (vs : list (list string * list string))
  : list (list string) :=
  vs ≫= (λ v, (λ file, fst v ++ [file]) <$> snd v).

(** The directory keys of a relative directory: the slash-joined prefixes
    of its path; the root has none. *)
Definition dir_keys (relativeDirectory : string) : list string :=
  if bool_decide (relativeDirectory = ".") then []
  else Str.join "/" <$> prefixes (Str.split "/" relativeDirectory).

Definition is_heading (e : Event) : Prop :=
  match e with Heading _ _ _ => True | _ => False end.

Global Instance is_heading_dec e : Decision (is_heading e).
Proof. destruct e; simpl; apply _. Defined.

(** The keys of the headings and the files of the links of a run, in order. *)
Definition heading_keys (tr : list Event) : list string :=
  omap (λ e, match e with Heading key _ _ => Some key | _ => None end) tr.

Definition links (tr : list Event) : list string :=
  omap (λ e, match e with Link file => Some file | _ => None end) tr.

(** How often a key has its heading added, and a file its link. *)
Definition heading_count (key : string) (tr : list Event) : nat :=
  length (filter (λ k, k = key) (heading_keys tr)).

Definition link_count (file : string) (tr : list Event) : nat :=
  length (filter (λ f, f = file) (links tr)).

(** The steps of one processed directory: its headings, then its links. *)
Record Group : Type := MkGroup {
  group_dir : list string;
  group_headings : list Event;
  group_names : list string
}.

Definition group_events (g : Group) : list Event :=
  Visit (rel_of (group_dir g))
  :: group_headings g ++ (link_of (group_dir g) <$> group_names g).

(** The tree a run leaves behind: [README.md] is in the root, where it was
    or, when new, at some position [i] of the listing. *)
Definition with_readme (i : nat) (t : Tree) : Tree :=
  match t with
  | Node dirs nondirs =>
      if bool_decide ("README.md" ∈ nondirs) then t
      else Node dirs (take i nondirs ++ "README.md" :: drop i nondirs)
  end.

(** [s] holds nothing but dots. *)
Fixpoint all_dots (s : string) : bool :=
  match s with
  | EmptyString => true
  | String a s' => Ascii.eqb a "." && all_dots s'
  end.

(** A name that ends in [".md"], without these three characters. *)
Definition strip_md (name : string) : string :=
  String.substring 0 (String.length name - 3) name.

(** The footer [_writeToFile] ends the index with. *)
Definition footer : string :=
  String "010" "" +:+ "---" +:+ String "010" "" +:+ String "010" ""
  +:+ "*This documentation index was automatically generated.*"
  +:+ String "010" "".

(** ** The index as text

    What each step of a run adds to the file, written out character by
    character, whatever [_generateLink] computes. *)

(** The text of the link to a kept file: the name of the file without its
    final [.md], or the whole name when nothing but dots stands before
    that. *)
Definition link_text (file : string) : string :=
  let name := List.last (Str.split "/" file) "" in
  if all_dots (strip_md name) then name else strip_md name.

Definition index_line (e : Event) : string :=
  match e with
  | Visit _ => ""
  | Heading _ level part =>
      String "010" "" +:+ Str.repeat "#" level +:+ " " +:+ part
      +:+ String "010" ""
  | Link file =>
      "- [" +:+ link_text file +:+ "](" +:+ file +:+ ")" +:+ String "010" ""
  end.

Definition index_text (tr : list Event) : string :=
  foldr (λ e s, index_line e +:+ s) "" tr.

(** ** A sample tree

    A root with files of its own, a nested documentation directory, an
    excluded directory and a directory that only holds a deeper one. *)
Definition sample_tree : Tree :=
  Node [("docs", Node [("api", Node [] ["z.md"; "a.md"; "n.txt"]);
                       (".git", Node [] ["h.md"])]
                      ["x.md"]);
        (".github", Node [] ["notes.md"]);
        ("empty", Node [("deep", Node [] [".md"; "README.md"])] [])]
       ["b.md"; "README.md"; "a.b.md"].

Definition sample_generator : IndexGenerator :=
  {| rootDirectory := "/r/proj";
     outputFile := "/r/proj/README.md";
     contents := "# proj" +:+ String "010" "";
     printed := ∅;
     trace := [] |}.

Definition sample_trace : list Event :=
  [Visit "."; Link "a.b.md"; Link "b.md";
   Visit "docs"; Heading "docs" 2 "docs"; Link "docs/x.md";
   Visit "docs/api"; Heading "docs/api" 3 "api";
   Link "docs/api/a.md"; Link "docs/api/z.md";
   Visit "empty/deep"; Heading "empty" 2 "empty";
   Heading "empty/deep" 3 "deep"; Link "empty/deep/.md"].

(** The file the run on the sample tree writes. *)
Definition sample_text : string :=
  "# proj" +:+ String "010" ""
  +:+ "- [a.b](a.b.md)" +:+ String "010" ""
  +:+ "- [b](b.md)" +:+ String "010" ""
  +:+ String "010" "" +:+ "## docs" +:+ String "010" ""
  +:+ "- [x](docs/x.md)" +:+ String "010" ""
  +:+ String "010" "" +:+ "### api" +:+ String "010" ""
  +:+ "- [a](docs/api/a.md)" +:+ String "010" ""
  +:+ "- [z](docs/api/z.md)" +:+ String "010" ""
  +:+ String "010" "" +:+ "## empty" +:+ String "010" ""
  +:+ String "010" "" +:+ "### deep" +:+ String "010" ""
  +:+ "- [.md](empty/deep/.md)" +:+ String "010" ""
  +:+ footer.

(** ** Trees with the same index

    Two trees that differ only in what the generator does not look at: in
    each directory the kept files are the same up to their order in the
    listing, the subdirectories have the same names in the same order, and
    below a subdirectory that is not excluded the same holds again. *)
Fixpoint same_index (t t' : Tree) : Prop :=
  match t, t' with
  | Node dirs nondirs, Node dirs' nondirs' =>
      filter (λ file, Str.endswith file ".md" = true ∧ file ≠ "README.md") nondirs
      ≡ₚ filter (λ file, Str.endswith file ".md" = true ∧ file ≠ "README.md")
           nondirs'
      ∧ (fix entries (l l' : list (string * Tree)) : Prop :=
           match l, l' with
           | [], [] => True
           | (name, sub) :: l, (name', sub') :: l' =>
               name = name'
               ∧ (name ∈ [".git"; ".github"] ∨ same_index sub sub')
               ∧ entries l l'
           | _, _ => False
           end) dirs dirs'
  end.

(** The three ways the generator changes its state: a directory is entered,
    a heading is added and its key marked, a link is added. *)
Definition enter (relativeDirectory : string) (self : IndexGenerator)
  : IndexGenerator :=
  {| rootDirectory := rootDirectory self;
     outputFile := outputFile self;
     contents := contents self;
     printed := printed self;
     trace := trace self ++ [Visit relativeDirectory] |}.

Definition add_heading (key : string) (i : nat) (part : string)
    (self : IndexGenerator) : IndexGenerator :=
  IndexGenerator.mark key
    (IndexGenerator.emit
       (String "010" "" +:+ Str.repeat "#" (i + 2) +:+ " " +:+ part
        +:+ String "010" "")
       (Heading key (i + 2) part) self).

Definition add_link (file : string) (self : IndexGenerator) : IndexGenerator :=
  IndexGenerator.emit
    (IndexGenerator._generateLink file +:+ String "010" "") (Link file) self.

(** A second sample tree: the sample tree with its listings reordered,
    other files added and the excluded directories changed. *)
Definition sample_tree_shuffled : Tree :=
  Node [("docs", Node [("api", Node [] ["n.txt"; "a.md"; "z.md"; "README.md"]);
                       (".git", Node [("objects", Node [] ["pack.md"])] [])]
                      ["x.md"; "x.rst"]);
        (".github", Node [] []);
        ("empty", Node [("deep", Node [] ["README.md"; ".md"])] ["notes.txt"])]
       ["a.b.md"; "b.md"].

(** The paths of the kept files of a list of processed directories, in the
    order of their links. *)
Definition ordered_paths (vs : list (list string * list string))
  : list (list string) :=
  vs ≫= (λ v, (λ file, fst v ++ [file]) <$> IndexGenerator.sorted (snd v)).

(** * Properties *)

Local Arguments Ascii.eqb : simpl never.

(** * Properties *)

(** ** Strings *)

Section StringFacts.

Lemma str_app_cons a s t : String a s +:+ t = String a (s +:+ t).
Proof. reflexivity. Qed.

Lemma str_app_nil_l s : "" +:+ s = s.
Proof. reflexivity. Qed.

Lemma str_app_nil_r s : s +:+ "" = s.
Proof. induction s as [|a s IH]; [done|]. by rewrite str_app_cons, IH. Qed.

Lemma str_app_assoc s t u : (s +:+ t) +:+ u = s +:+ (t +:+ u).
Proof. induction s as [|a s IH]; [done|]. by rewrite !str_app_cons, IH. Qed.

Lemma str_app_length s t :
  String.length (s +:+ t) = (String.length s + String.length t)%nat.
Proof. induction s as [|a s IH]; [done|]. rewrite str_app_cons. simpl. by rewrite IH. Qed.

Lemma str_app_eq_nil s t : s +:+ t = "" → s = "" ∧ t = "".
Proof. destruct s; [done|]. by rewrite str_app_cons. Qed.

Lemma str_app_inv_tail s t u : s +:+ u = t +:+ u → s = t.
Proof.
  revert t. induction s as [|a s IH]; intros [|b t] H; try done.
  - apply (f_equal String.length) in H.
    rewrite !str_app_length in H. simpl in H. lia.
  - apply (f_equal String.length) in H.
    rewrite !str_app_length in H. simpl in H. lia.
  - rewrite !str_app_cons in H. injection H as -> H. f_equal. by apply IH.
Qed.

Lemma substring_all s : String.substring 0 (String.length s) s = s.
Proof. induction s as [|a s IH]; [done|]. simpl. by rewrite IH. Qed.

Lemma substring_0_app s t :
  String.substring 0 (String.length s) (s +:+ t) = s.
Proof.
  induction s as [|a s IH]; simpl.
  - by destruct t.
  - by rewrite IH.
Qed.

Lemma substring_skip_app s t n :
  String.substring (String.length s) n (s +:+ t) = String.substring 0 n t.
Proof. induction s as [|a s IH]; [done|]. done. Qed.

(** *** [endswith] *)

Lemma endswith_refl s : Str.endswith s s = true.
Proof. destruct s; [done|]. cbn [Str.endswith]. by rewrite String.eqb_refl. Qed.

Lemma endswith_app s t : Str.endswith (s +:+ t) t = true.
Proof.
  induction s as [|a s IH]; [apply endswith_refl|].
  rewrite str_app_cons. cbn [Str.endswith]. rewrite IH. apply orb_true_r.
Qed.

Lemma endswith_spec s suffix :
  Str.endswith s suffix = true ↔ ∃ p, s = p +:+ suffix.
Proof.
  split.
  - induction s as [|a s IH]; cbn [Str.endswith].
    + rewrite orb_false_r. intros ->%String.eqb_eq. by exists "".
    + intros [->%String.eqb_eq|H]%orb_true_iff; [by exists ""|].
      destruct (IH H) as [p ->]. by exists (String a p).
  - intros [p ->]. apply endswith_app.
Qed.

Lemma endswith_char_app s t c :
  t ≠ "" → Str.endswith (s +:+ t) (String c "") = Str.endswith t (String c "").
Proof.
  intros Ht. induction s as [|a s IH]; [done|].
  rewrite str_app_cons. cbn [Str.endswith]. rewrite IH.
  destruct (s +:+ t) eqn:E; [by apply str_app_eq_nil in E as [_ ?]|].
  simpl. by destruct (Ascii.eqb a c).
Qed.

Lemma endswith_char_has s c :
  Str.endswith s (String c "") = true → has_char c s = true.
Proof.
  induction s as [|a s IH]; [done|]. cbn [Str.endswith has_char].
  intros [H|H]%orb_true_iff.
  - apply String.eqb_eq in H. injection H as -> _. by rewrite Ascii.eqb_refl.
  - rewrite (IH H). apply orb_true_r.
Qed.

(** *** [has_char] *)

Lemma has_char_app c s t :
  has_char c (s +:+ t) = has_char c s || has_char c t.
Proof.
  induction s as [|a s IH]; [done|].
  rewrite str_app_cons. simpl. by rewrite IH, orb_assoc.
Qed.

(** *** [split] and [join] *)

Lemma split_nonempty c s : Str.split c s ≠ [].
Proof. destruct s as [|a s]; simpl; [done|]. by repeat case_match. Qed.

Lemma split_no_sep c s : has_char c s = false → Str.split c s = [s].
Proof.
  induction s as [|a s IH]; simpl; [done|].
  intros [Ha Hs]%orb_false_iff. by rewrite Ha, (IH Hs).
Qed.

Lemma split_app_sep c a b :
  Str.split c (a +:+ String c b) = Str.split c a ++ Str.split c b.
Proof.
  induction a as [|x a IH].
  - rewrite str_app_nil_l. simpl. by rewrite Ascii.eqb_refl.
  - rewrite str_app_cons. simpl. rewrite IH.
    destruct (Ascii.eqb x c); [done|].
    pose proof (split_nonempty c a). by destruct (Str.split c a).
Qed.

Lemma split_pieces c s : Forall (λ x, has_char c x = false) (Str.split c s).
Proof.
  induction s as [|a s IH]; simpl; [by repeat constructor|].
  destruct (Ascii.eqb a c) eqn:E; [by constructor|].
  destruct (Str.split c s); [by repeat constructor; simpl; rewrite E|].
  inversion_clear IH. constructor; [|done]. simpl. by rewrite E.
Qed.

Lemma join_cons sep x l :
  l ≠ [] → Str.join sep (x :: l) = x +:+ sep +:+ Str.join sep l.
Proof. by destruct l. Qed.

Lemma join_snoc sep l x :
  l ≠ [] → Str.join sep (l ++ [x]) = Str.join sep l +:+ sep +:+ x.
Proof.
  induction l as [|y l IH]; [done|]. intros _.
  destruct l as [|z l]; [done|].
  change ((y :: z :: l) ++ [x]) with (y :: ((z :: l) ++ [x])).
  rewrite !join_cons, IH by done.
  by rewrite !str_app_assoc.
Qed.

Lemma split_join c l :
  l ≠ [] → Forall (λ x, has_char c x = false) l →
  Str.split c (Str.join (String c "") l) = l.
Proof.
  induction l as [|x l IH]; [done|]. intros _ Hl.
  inversion_clear Hl as [|?? Hx Hl'].
  destruct l as [|y l]; [by apply split_no_sep|].
  rewrite join_cons by done.
  change (String c "" +:+ ?s) with (String c s).
  by rewrite split_app_sep, split_no_sep, IH.
Qed.

Lemma join_eq_nil sep l :
  Forall (λ x, x ≠ "") l → Str.join sep l = "" → l = [].
Proof.
  destruct l as [|x l]; [done|]. intros Hl. inversion_clear Hl.
  destruct l; simpl; [done|]. by intros [? _]%str_app_eq_nil.
Qed.

Lemma join_inj c l1 l2 :
  Forall (λ x, x ≠ "" ∧ has_char c x = false) l1 →
  Forall (λ x, x ≠ "" ∧ has_char c x = false) l2 →
  Str.join (String c "") l1 = Str.join (String c "") l2 → l1 = l2.
Proof.
  intros H1 H2 E.
  destruct (decide (l1 = [])) as [->|N1].
  { symmetry. eapply join_eq_nil; [|by rewrite <-E].
    eapply Forall_impl; [exact H2|]. by intros ? []. }
  destruct (decide (l2 = [])) as [->|N2].
  { eapply join_eq_nil; [|by rewrite E].
    eapply Forall_impl; [exact H1|]. by intros ? []. }
  rewrite <-(split_join c l1), <-(split_join c l2), E; try done.
  - eapply Forall_impl; [exact H2|]. by intros ? [].
  - eapply Forall_impl; [exact H1|]. by intros ? [].
Qed.

Lemma replace_same c s : Str.replace c (String c "") s = s.
Proof.
  induction s as [|a s IH]; simpl; [done|].
  destruct (Ascii.eqb_spec a c) as [->|]; by rewrite IH.
Qed.

End StringFacts.

(** ** Paths *)

Section PathFacts.

Lemma wf_name_start n : wf_name n → Str.startswith_char n Path.sep = false.
Proof.
  intros (Hn & _ & _ & Hs). destruct n as [|a n]; [done|].
  unfold Path.sep. simpl in *. by apply orb_false_iff in Hs as [-> _].
Qed.

Lemma wf_name_pieces l :
  Forall wf_name l → Forall (λ x, x ≠ "" ∧ has_char "/" x = false) l.
Proof. intros H. eapply Forall_impl; [exact H|]. by intros ? (? & _ & _ & ?). Qed.

Lemma wf_name_slash_free l :
  Forall wf_name l → Forall (λ x, has_char "/" x = false) l.
Proof. intros H. eapply Forall_impl; [exact H|]. by intros ? (? & _ & _ & ?). Qed.

Lemma join_step_name top n :
  wf_name n →
  Path.join_step top n =
    if String.eqb top "" || Str.endswith top "/" then top +:+ n
    else top +:+ "/" +:+ n.
Proof. intros Hn. unfold Path.join_step. by rewrite (wf_name_start n Hn). Qed.

Lemma normpath_slashes_join top n :
  wf_name n →
  Path.normpath_slashes (Path.join_step top n) = Path.normpath_slashes top.
Proof.
  intros Hn. rewrite (join_step_name _ _ Hn).
  pose proof (wf_name_start n Hn) as Hs.
  destruct Hn as (Hne & _).
  destruct n as [|x n]; [done|]. unfold Path.sep in *. simpl in Hs.
  unfold Path.normpath_slashes, Str.startswith_char, Path.sep.
  destruct top as [|a [|b [|c top]]]; cbn.
  all: repeat match goal with
       | |- context [Ascii.eqb ?u ?v] => destruct (Ascii.eqb_spec u v); subst
       | H : context [Ascii.eqb ?u ?v] |- _ => destruct (Ascii.eqb_spec u v); subst
       end; cbv [String.append]; cbn in *; try done.
  all: repeat match goal with
       | |- context [Ascii.eqb ?u ?v] => destruct (Ascii.eqb_spec u v); subst
       end; try done.
  all: try by destruct n.
  all: match goal with
       | |- context [if ?b then String _ _ else _] => destruct b
       end.
  all: cbn; repeat match goal with
       | |- context [Ascii.eqb ?u ?v] => destruct (Ascii.eqb_spec u v); subst
       end; try done.
Qed.

Lemma normpath_step_name k cs n :
  wf_name n → Path.normpath_step k cs n = cs ++ [n].
Proof.
  intros (H1 & H2 & H3 & _). unfold Path.normpath_step.
  rewrite bool_decide_eq_false_2 by (intros [?|?]; done).
  by rewrite bool_decide_eq_true_2 by (by left).
Qed.

Lemma normpath_step_empty k cs : Path.normpath_step k cs "" = cs.
Proof. unfold Path.normpath_step. by rewrite bool_decide_eq_true_2 by auto. Qed.

Lemma split_join_step top n :
  wf_name n →
  ∃ l, Str.split "/" (Path.join_step top n) = l ++ [n]
       ∧ (Str.split "/" top = l ∨ Str.split "/" top = l ++ [""]).
Proof.
  intros Hn. rewrite (join_step_name _ _ Hn).
  assert (Str.split "/" n = [n]) as Hsn.
  { apply split_no_sep. by destruct Hn as (_ & _ & _ & ?). }
  destruct (String.eqb_spec top "") as [->|Hne]; simpl.
  { exists []. rewrite str_app_nil_l, Hsn. auto. }
  destruct (Str.endswith top "/") eqn:E.
  - apply endswith_spec in E as [p ->]. exists (Str.split "/" p).
    rewrite str_app_assoc. change ("/" +:+ n) with (String "/" n).
    change (p +:+ "/") with (p +:+ String "/" "").
    rewrite !split_app_sep, Hsn. auto.
  - exists (Str.split "/" top).
    change ("/" +:+ n) with (String "/" n).
    rewrite split_app_sep, Hsn. auto.
Qed.

Lemma normpath_comps_join top n :
  wf_name n →
  Path.normpath_comps (Path.join_step top n) = Path.normpath_comps top ++ [n].
Proof.
  intros Hn. unfold Path.normpath_comps.
  rewrite (normpath_slashes_join _ _ Hn). unfold Path.sep.
  destruct (split_join_step top n Hn) as (l & -> & [->| ->]).
  - by rewrite fold_left_app; simpl; rewrite normpath_step_name.
  - rewrite !fold_left_app. simpl.
    by rewrite normpath_step_empty, normpath_step_name.
Qed.

Lemma normpath_comps_join_list top segs :
  Forall wf_name segs →
  Path.normpath_comps (Path.join top segs) = Path.normpath_comps top ++ segs
  ∧ Path.normpath_slashes (Path.join top segs) = Path.normpath_slashes top.
Proof.
  intros Hs. revert top. induction Hs as [|n segs Hn _ IH]; intros top.
  - by rewrite app_nil_r.
  - unfold Path.join in *. simpl. destruct (IH (Path.join_step top n)) as [-> ->].
    rewrite normpath_comps_join, normpath_slashes_join by done.
    by rewrite <-app_assoc.
Qed.

(** The components [normpath] keeps are not empty and hold no separator. *)
Lemma normpath_comps_pieces p :
  Forall (λ x, x ≠ "" ∧ has_char "/" x = false) (Path.normpath_comps p).
Proof.
  unfold Path.normpath_comps.
  pose proof (split_pieces Path.sep p) as Hp.
  cut (∀ acc, Forall (λ x, x ≠ "" ∧ has_char "/" x = false) acc →
         Forall (λ x, x ≠ "" ∧ has_char "/" x = false)
           (fold_left (Path.normpath_step (Path.normpath_slashes p))
              (Str.split Path.sep p) acc)).
  { intros H. apply H. constructor. }
  induction Hp as [|c cs Hc _ IH]; intros acc Hacc; [done|].
  simpl. apply IH. unfold Path.normpath_step.
  case_bool_decide as E1; [done|].
  case_bool_decide.
  - apply Forall_app. split; [done|]. constructor; [|done].
    split; [|done]. intros ->. apply E1. by left.
  - destruct acc as [|a acc _] using rev_ind; [done|].
    rewrite removelast_last. by apply Forall_app in Hacc as [? _].
Qed.

Lemma split_repeat_sep k s :
  Str.split "/" (Str.repeat "/" k +:+ s) = replicate k "" ++ Str.split "/" s.
Proof. induction k as [|k IH]; [done|]. simpl. by rewrite IH. Qed.

Lemma filter_nonempty_pieces (l : list string) :
  Forall (λ x, x ≠ "" ∧ has_char "/" x = false) l →
  filter (λ x, x ≠ "") l = l.
Proof.
  induction 1 as [|x l [Hx _] _ IH]; [done|].
  by rewrite filter_cons_True, IH.
Qed.

Lemma filter_nonempty_replicate k (l : list string) :
  filter (λ x, x ≠ "") (replicate k "" ++ l) = filter (λ x, x ≠ "") l.
Proof. induction k as [|k IH]; [done|]. simpl. by rewrite filter_cons_False by auto. Qed.

(** The components of an absolute path, read back from its normal form. *)
Lemma split_normpath p :
  Path.isabs p = true →
  filter (λ x, x ≠ "") (Str.split Path.sep (Path.normpath p))
  = Path.normpath_comps p.
Proof.
  intros Habs. unfold Path.normpath.
  destruct p as [|a p]; [done|].
  assert (∃ k, Path.normpath_slashes (String a p) = S k) as [k Hk].
  { unfold Path.normpath_slashes. unfold Path.isabs in Habs. rewrite Habs.
    repeat case_match; eauto. }
  rewrite Hk. set (cs := Path.normpath_comps (String a p)).
  assert (String.eqb (String a p) "" = false) as -> by done.
  simpl Str.repeat. rewrite str_app_cons.
  assert (String.eqb (String Path.sep
            (Str.repeat Path.sep k +:+ Str.join (String Path.sep "") cs)) ""
          = false) as -> by done.
  change (String Path.sep ?s) with (Str.repeat "/" 1 +:+ s) at 1.
  unfold Path.sep. rewrite !split_repeat_sep, !filter_nonempty_replicate.
  pose proof (normpath_comps_pieces (String a p)) as Hcs. fold cs in Hcs.
  destruct (decide (cs = [])) as [->|Hne]; [done|].
  rewrite split_join; [by apply filter_nonempty_pieces|done|].
  eapply Forall_impl; [exact Hcs|]. by intros ? [].
Qed.

Lemma abspath_abs_arg cwd p :
  Path.abspath cwd p = Path.normpath (abs_arg cwd p).
Proof. unfold Path.abspath, abs_arg. by destruct (Path.isabs p). Qed.

Lemma abs_arg_isabs cwd p :
  Path.isabs cwd = true → Path.isabs (abs_arg cwd p) = true.
Proof.
  intros Hc. unfold abs_arg. destruct (Path.isabs p) eqn:E; [done|].
  unfold Path.join_step. unfold Path.isabs in E. rewrite E.
  destruct cwd as [|a cwd]; [done|]. by destruct (_ || _).
Qed.

Lemma join_step_glue path b :
  Str.startswith_char b "/" = false →
  Path.join_step path b = path +:+ glue path +:+ b.
Proof.
  intros Hb. unfold Path.join_step, glue, Path.sep. rewrite Hb.
  by destruct (_ || _).
Qed.

Lemma glue_app X T : T ≠ "" → glue (X +:+ T) = glue T.
Proof.
  intros HT. unfold glue. rewrite endswith_char_app by done.
  assert (String.eqb (X +:+ T) "" = false) as ->.
  { apply String.eqb_neq. by intros [_ ?]%str_app_eq_nil. }
  by apply String.eqb_neq in HT as ->.
Qed.

Lemma startswith_char_app T X c :
  T ≠ "" → Str.startswith_char (T +:+ X) c = Str.startswith_char T c.
Proof. by destruct T. Qed.

Lemma abs_arg_join_step cwd top n :
  wf_name n →
  abs_arg cwd (Path.join_step top n) = Path.join_step (abs_arg cwd top) n.
Proof.
  intros Hn. pose proof (wf_name_start n Hn) as Hs. unfold Path.sep in Hs.
  assert (n ≠ "") as Hne by by destruct Hn.
  unfold abs_arg, Path.isabs, Path.sep.
  rewrite (join_step_glue top n Hs).
  destruct (decide (top = "")) as [->|Htop].
  - rewrite !str_app_nil_l, Hs. simpl.
    rewrite (join_step_glue cwd n Hs), (join_step_glue cwd "") by done.
    rewrite str_app_nil_r, (join_step_glue _ n Hs).
    unfold glue.
    destruct (String.eqb cwd "" || Str.endswith cwd "/") eqn:E.
    + by rewrite !str_app_nil_r, E.
    + change (cwd +:+ "/") with (cwd +:+ String "/" "").
      by rewrite endswith_app, orb_true_r, str_app_assoc.
  - rewrite startswith_char_app by done.
    destruct (Str.startswith_char top "/") eqn:Habs.
    + by rewrite (join_step_glue top n Hs).
    + rewrite !join_step_glue; try done.
      * rewrite <-!str_app_assoc, (glue_app _ top Htop).
        by rewrite !str_app_assoc.
      * by rewrite startswith_char_app.
Qed.

Lemma abs_arg_join cwd top segs :
  Forall wf_name segs →
  abs_arg cwd (Path.join top segs) = Path.join (abs_arg cwd top) segs.
Proof.
  intros Hs. revert top. induction Hs as [|n segs Hn _ IH]; intros top; [done|].
  unfold Path.join in *. simpl. by rewrite IH, abs_arg_join_step.
Qed.

Lemma commonprefix_len_app l m : Path.commonprefix_len l (l ++ m) = length l.
Proof.
  induction l as [|x l IH]; simpl; [by destruct m|].
  by rewrite String.eqb_refl, IH.
Qed.

(** [posixpath.join] of names is the slash-joined string. *)
Lemma join_names a p :
  Forall wf_name (a :: p) → Path.join a p = Str.join "/" (a :: p).
Proof.
  induction p as [|x p IH] using rev_ind; [done|].
  intros H. change (a :: p ++ [x]) with ((a :: p) ++ [x]) in H.
  apply Forall_app in H as [H Hx].
  inversion_clear Hx as [|?? Hx' _].
  unfold Path.join in *. rewrite fold_left_app. cbn [fold_left]. rewrite (IH H).
  rewrite (join_step_name _ _ Hx').
  change (a :: p ++ [x]) with ((a :: p) ++ [x]). rewrite join_snoc by done.
  assert (Str.join "/" (a :: p) ≠ "") as Hne.
  { intros E. apply join_eq_nil in E; [done|].
    eapply Forall_impl; [exact H|]. by intros ? (? & _). }
  apply String.eqb_neq in Hne as ->. cbn [orb].
  destruct (Str.endswith (Str.join "/" (a :: p)) "/") eqn:E; [|done].
  exfalso.
  destruct (exists_last (l:=a :: p)) as (l & z & El); [done|].
  rewrite El in H, E. apply Forall_app in H as [_ Hz].
  inversion_clear Hz as [|?? (Hz1 & _ & _ & Hz2) _].
  destruct l as [|y l].
  - cbn [app Str.join] in E. apply endswith_char_has in E. congruence.
  - rewrite join_snoc in E by done.
    rewrite <-str_app_assoc, endswith_char_app in E by done.
    apply endswith_char_has in E. congruence.
Qed.

(** The relative directory of the [segs]-th descendant of the root, as
    [_processDirectory] computes it. *)
Theorem relpath_descendant cwd root segs :
  Path.isabs cwd = true → Forall wf_name segs →
  Path.relpath cwd (Path.join root segs) root
  = match segs with [] => "." | _ => Str.join "/" segs end.
Proof.
  intros Hc Hs. unfold Path.relpath.
  rewrite !abspath_abs_arg, !split_normpath by by apply abs_arg_isabs.
  rewrite abs_arg_join by done.
  destruct (normpath_comps_join_list (abs_arg cwd root) segs Hs) as [-> _].
  rewrite commonprefix_len_app, Nat.sub_diag, drop_app_length. simpl.
  destruct segs as [|a p]; [done|]. by apply join_names.
Qed.

End PathFacts.

(** ** The walk *)

Section WalkFacts.

Lemma Tree_nested_ind (P : Tree → Prop) :
  (∀ dirs nondirs, Forall (λ entry, P (snd entry)) dirs → P (Node dirs nondirs)) →
  ∀ t, P t.
Proof.
  intros H. fix IH 1. intros [dirs nondirs]. apply H.
  induction dirs as [|[n sub] dirs IHd]; constructor; [apply IH|apply IHd].
Qed.

Lemma wf_tree_node dirs nondirs :
  wf_tree (Node dirs nondirs) = true →
  NoDup (map fst dirs ++ nondirs)
  ∧ Forall wf_name (map fst dirs ++ nondirs)
  ∧ Forall (λ entry, wf_tree (snd entry) = true) dirs.
Proof.
  simpl. intros [[H1 H2]%andb_true_iff H3]%andb_true_iff.
  apply bool_decide_eq_true in H1, H2.
  split_and!; [done..|]. apply Forall_forall. intros e He.
  rewrite forallb_forall in H3. apply H3. by apply list_elem_of_In.
Qed.

Lemma path_join_app a p q :
  Path.join a (p ++ q) = Path.join (Path.join a p) q.
Proof. unfold Path.join. apply fold_left_app. Qed.

Variable cwd : string.

(** Looking a name up among the entries finds its own subtree. *)
Lemma scandir_found {A} (f : Tree → A) (d : A) pre n sub post :
  n ∉ map fst pre →
  (fix scandir (entries : list (string * Tree)) : A :=
     match entries with
     | [] => d
     | (name, sub) :: entries' =>
         if String.eqb name n then f sub else scandir entries'
     end) (pre ++ (n, sub) :: post) = f sub.
Proof.
  induction pre as [|[m s] pre IH]; simpl.
  - by rewrite String.eqb_refl.
  - intros Hn. apply not_elem_of_cons in Hn as [Hm Hn].
    destruct (String.eqb_spec m n); [done|]. by apply IH.
Qed.

(** The loop of [generate] processes the directories of [visits] in order. *)
Lemma walk_visits root t : ∀ segs self,
  wf_tree t = true →
  IndexGenerator.walk cwd (Path.join root segs) t self
  = fold_left (visit_step cwd root) (visits segs t) self.
Proof.
  induction t as [dirs nondirs IH] using Tree_nested_ind.
  intros segs self (Hnd & _ & Hsub)%wf_tree_node.
  apply NoDup_app in Hnd as (Hnd & _ & _).
  cbn [IndexGenerator.walk visits IndexGenerator._filterDirectory].
  rewrite fold_left_app.
  set (fs := filter (λ file, Str.endswith file ".md" = true ∧ file ≠ "README.md") nondirs).
  set (self1 := if bool_decide (fs ≠ []) then _ else self).
  assert (fold_left (visit_step cwd root)
            (if bool_decide (fs ≠ []) then [(segs, fs)] else []) self = self1)
    as ->.
  { unfold self1. by destruct (bool_decide (fs ≠ [])). }
  clearbody self1. clear self.
  assert (∃ pre, dirs = pre ++ dirs) as [pre Hpre] by by exists [].
  revert self1 Hpre.
  generalize dirs at 2 4 5 as todo.
  intros todo. revert pre.
  induction todo as [|[n sub] todo IHt]; intros pre self Hpre; [done|].
  cbn [map fst flat_map].
  assert (n ∉ map fst pre) as Hn.
  { rewrite Hpre, map_app in Hnd. apply NoDup_app in Hnd as (_ & Hd & _).
    intros Hin. apply (Hd n Hin). simpl. left. }
  rewrite fold_left_app.
  rewrite Forall_forall in IH, Hsub.
  assert ((n, sub) ∈ dirs) as Hin.
  { rewrite Hpre. apply elem_of_app. right. left. }
  case_bool_decide as Hex.
  - rewrite filter_cons_True by done. cbn [fold_left].
    rewrite <-(IH _ Hin) by exact (Hsub _ Hin).
    rewrite Hpre at 1. rewrite scandir_found by done.
    rewrite <-path_join_app.
    apply (IHt (pre ++ [(n, sub)])). rewrite <-app_assoc. exact Hpre.
  - rewrite filter_cons_False by (by intros ?). cbn [fold_left].
    apply (IHt (pre ++ [(n, sub)])). rewrite <-app_assoc. exact Hpre.
Qed.

(** What every round of the loop of [generate] keeps, the walk keeps. *)
Lemma walk_invariant (P : IndexGenerator → Prop) :
  (∀ directory files self,
     P self → P (IndexGenerator._processDirectory cwd directory files self)) →
  ∀ t top self, P self → P (IndexGenerator.walk cwd top t self).
Proof.
  intros Hstep. induction t as [dirs nondirs IH] using Tree_nested_ind.
  intros top self Hself.
  cbn [IndexGenerator.walk IndexGenerator._filterDirectory].
  set (fs := filter (λ file, Str.endswith file ".md" = true ∧ file ≠ "README.md") nondirs).
  set (self1 := if bool_decide (fs ≠ []) then _ else self).
  assert (P self1) as Hself1.
  { unfold self1. case_bool_decide; [by apply Hstep|done]. }
  clearbody self1. clear Hself self.
  generalize (filter (λ subdirectory, subdirectory ∉ [".git"; ".github"])
                (map fst dirs)) as names.
  intros names. revert self1 Hself1.
  induction names as [|dirname names IHn]; intros self Hself; [done|].
  cbn [fold_left]. apply IHn. clear IHn.
  induction IH as [|[name sub] entries Hsub _ IHe]; [done|].
  destruct (String.eqb name dirname); [by apply Hsub|done].
Qed.

Lemma headings_loop_outputFile parts : ∀ i acc self,
  outputFile (IndexGenerator._addDirectoryHeadings_loop i acc parts self)
  = outputFile self.
Proof.
  induction parts as [|part parts IH]; intros i acc self; [done|].
  cbn [IndexGenerator._addDirectoryHeadings_loop]. rewrite IH.
  by case_bool_decide.
Qed.

Lemma process_outputFile directory files self :
  outputFile (IndexGenerator._processDirectory cwd directory files self)
  = outputFile self.
Proof.
  unfold IndexGenerator._processDirectory.
  set (rel := Path.relpath cwd directory (rootDirectory self)).
  set (self1 := {| rootDirectory := rootDirectory self;
                   outputFile := outputFile self;
                   contents := contents self; printed := printed self;
                   trace := trace self ++ [Visit rel] |}).
  set (self2 := if bool_decide (rel ≠ ".") then _ else self1).
  assert (outputFile self2 = outputFile self) as <-.
  { unfold self2. case_bool_decide; [|done].
    unfold IndexGenerator._addDirectoryHeadings.
    by rewrite headings_loop_outputFile. }
  generalize (IndexGenerator.sorted files) as l. intros l.
  generalize self2 as s. induction l as [|file l IH]; intros s; [done|].
  cbn [fold_left]. by rewrite IH.
Qed.

(** The run writes to the output file the generator was built with. *)
Lemma generated_outputFile t self :
  outputFile (IndexGenerator.generated cwd t self) = outputFile self.
Proof.
  unfold IndexGenerator.generated.
  apply (walk_invariant (λ s, outputFile s = outputFile self)); [|done].
  intros directory files s <-. apply process_outputFile.
Qed.

End WalkFacts.

(** ** Processing one directory *)

Section ProcessFacts.

Lemma render_app l1 l2 : render (l1 ++ l2) = render l1 +:+ render l2.
Proof.
  induction l1 as [|e l1 IH]; [done|].
  simpl. by rewrite IH, str_app_assoc.
Qed.

Lemma render_singleton e : render [e] = render_event e.
Proof. simpl. apply str_app_nil_r. Qed.

Lemma prefixes_from_length acc parts p :
  p ∈ prefixes_from acc parts → (length acc < length p)%nat.
Proof.
  revert acc. induction parts as [|part parts IH]; intros acc; simpl.
  - by intros ?%elem_of_nil.
  - intros [->|H]%elem_of_cons.
    + rewrite length_app. simpl. lia.
    + apply IH in H. rewrite length_app in H. simpl in H. lia.
Qed.

Lemma prefixes_from_spec acc parts p :
  p ∈ prefixes_from acc parts ↔ ∃ q, q ≠ [] ∧ q `prefix_of` parts ∧ p = acc ++ q.
Proof.
  revert acc. induction parts as [|part parts IH]; intros acc; simpl.
  - split; [by intros ?%elem_of_nil|].
    intros (q & Hq & Hp & _). by apply prefix_nil_inv in Hp.
  - rewrite elem_of_cons, IH. split.
    + intros [->|(q & Hq & Hp & ->)].
      * exists [part]. split_and!; [done| |done]. by apply prefix_cons, prefix_nil.
      * exists (part :: q). split_and!; [done| |by rewrite <-app_assoc].
        by apply prefix_cons.
    + intros (q & Hq & Hp & ->). destruct q as [|x q]; [done|].
      apply prefix_cons_inv_1 in Hp as Hx. subst x.
      apply prefix_cons_inv_2 in Hp.
      destruct q as [|y q]; [by left|]. right.
      exists (y :: q). split_and!; [done..|]. by rewrite <-app_assoc.
Qed.

Lemma prefixes_spec segs p :
  p ∈ prefixes segs ↔ p ≠ [] ∧ p `prefix_of` segs.
Proof.
  unfold prefixes. rewrite prefixes_from_spec. split.
  - by intros (q & ? & ? & ->).
  - intros [? ?]. by exists p.
Qed.

Lemma prefixes_from_wf acc parts :
  Forall wf_name (acc ++ parts) →
  Forall (Forall wf_name) (prefixes_from acc parts).
Proof.
  intros H. apply Forall_forall. intros p (q & _ & [r ->] & ->)%prefixes_from_spec.
  rewrite app_assoc in H. by apply Forall_app in H as [? _].
Qed.

Lemma join_key_inj (p q : list string) :
  Forall wf_name p → Forall wf_name q →
  Str.join "/" p = Str.join "/" q → p = q.
Proof. intros Hp Hq. apply join_inj; by apply wf_name_pieces. Qed.

Lemma key_elem_of_seen (seen : list (list string)) p :
  Forall (Forall wf_name) seen → Forall wf_name p →
  Str.join "/" p ∈ (list_to_set (Str.join "/" <$> seen) : gset string)
  ↔ p ∈ seen.
Proof.
  intros Hseen Hp. rewrite elem_of_list_to_set, list_elem_of_fmap. split.
  - intros (q & E & Hq). rewrite Forall_forall in Hseen.
    by rewrite (join_key_inj p q Hp (Hseen q Hq) E).
  - intros ?. by exists p.
Qed.

Lemma filter_ext_elem {A} (P1 P2 : A → Prop)
    `{!∀ x, Decision (P1 x), !∀ x, Decision (P2 x)} (l : list A) :
  (∀ x, x ∈ l → P1 x ↔ P2 x) → filter P1 l = filter P2 l.
Proof.
  induction l as [|a l IH]; intros Hext; [done|].
  assert (filter P1 l = filter P2 l) as E.
  { apply IH. intros x Hx. apply Hext. by right. }
  destruct (decide (P1 a)) as [Ha|Ha].
  - rewrite !filter_cons_True; [by rewrite E| |done].
    apply Hext; [by left|done].
  - rewrite !filter_cons_False; [done| |done].
    intros Ha'. apply Ha, Hext; [by left|done].
Qed.

(** The loop of [_addDirectoryHeadings] adds the headings of the prefixes
    that have none yet. *)
Lemma headings_loop_spec parts : ∀ acc self seen,
  Forall wf_name (acc ++ parts) →
  Forall (Forall wf_name) seen →
  printed self = list_to_set (Str.join "/" <$> seen) →
  let hs := heading_of <$> filter (λ p, p ∉ seen) (prefixes_from acc parts) in
  let self' :=
    IndexGenerator._addDirectoryHeadings_loop (length acc) acc parts self in
  trace self' = trace self ++ hs
  ∧ contents self' = contents self +:+ render hs
  ∧ printed self'
    = list_to_set (Str.join "/" <$> (prefixes_from acc parts ++ seen))
  ∧ rootDirectory self' = rootDirectory self
  ∧ outputFile self' = outputFile self.
Proof.
  induction parts as [|part parts IH]; intros acc self seen Hwf Hseen Hpr.
  { simpl. by rewrite app_nil_r, str_app_nil_r. }
  cbn [IndexGenerator._addDirectoryHeadings_loop prefixes_from].
  set (acc' := acc ++ [part]).
  assert (Forall wf_name (acc' ++ parts)) as Hwf'.
  { unfold acc'. by rewrite <-app_assoc. }
  assert (Forall wf_name acc') as Hacc'.
  { by apply Forall_app in Hwf' as [? _]. }
  assert (S (length acc) = length acc') as Hlen.
  { unfold acc'. rewrite length_app. simpl. lia. }
  assert (filter (λ p, p ∉ acc' :: seen) (prefixes_from acc' parts)
          = filter (λ p, p ∉ seen) (prefixes_from acc' parts)) as Hfil.
  { apply filter_ext_elem. intros p Hp%prefixes_from_length.
    rewrite not_elem_of_cons. split; [by intros [_ ?]|]. intros ?. split; [|done].
    intros ->. lia. }
  rewrite Hlen.
  case_bool_decide as Hnew.
  - rewrite Hpr, key_elem_of_seen in Hnew by done.
    rewrite filter_cons_True by done.
    edestruct (IH acc' (IndexGenerator.mark (Str.join "/" acc')
                 (IndexGenerator.emit
                    (String "010" "" +:+ Str.repeat "#" (length acc + 2)
                     +:+ " " +:+ part +:+ String "010" "")
                    (Heading (Str.join "/" acc') (length acc + 2) part) self))
                 (acc' :: seen)) as (Ht & Hc & Hp & Hr & Ho);
      [done|by constructor|by simpl; rewrite Hpr|].
    rewrite Hfil in Ht, Hc. simpl in Ht, Hc, Hp, Hr, Ho.
    assert (heading_of acc' = Heading (Str.join "/" acc') (length acc + 2) part)
      as Hh.
    { unfold heading_of. rewrite <-Hlen. unfold acc'. rewrite last_last.
      f_equal. lia. }
    split_and!; [| | |done..].
    + rewrite Ht, fmap_cons, Hh. by rewrite <-app_assoc.
    + rewrite Hc, fmap_cons, Hh. cbn [render foldr render_event].
      by rewrite !str_app_assoc.
    + rewrite Hp. apply set_eq. intros k.
      rewrite !elem_of_list_to_set, !fmap_app, !fmap_cons.
      repeat (rewrite elem_of_app || rewrite elem_of_cons). tauto.
  - rewrite Hpr, key_elem_of_seen in Hnew by done.
    rewrite filter_cons_False by (by intros ?).
    destruct (IH acc' self seen) as (Ht & Hc & Hp & Hr & Ho); [done..|].
    split_and!; [done..| |done|done].
    rewrite Hp. apply set_eq. intros k.
    rewrite !elem_of_list_to_set, !fmap_app, !fmap_cons.
    repeat (rewrite elem_of_app || rewrite elem_of_cons).
    split; [tauto|]. intros [[->|?]|?]; [|tauto..].
    right. by apply list_elem_of_fmap_2.
Qed.

Lemma join_names_not_curdir segs :
  Forall wf_name segs → segs ≠ [] → Str.join "/" segs ≠ ".".
Proof.
  intros Hwf Hne E. apply (f_equal (Str.split "/")) in E.
  rewrite split_join in E by (done || by apply wf_name_slash_free).
  simpl in E. subst segs. inversion_clear Hwf as [|?? (_ & ? & _) _]. done.
Qed.

Lemma join_rel_file segs file :
  Forall wf_name segs → wf_name file → segs ≠ [] →
  Path.join (Str.join "/" segs) [file] = Str.join "/" (segs ++ [file]).
Proof.
  intros Hs Hf Hne. destruct segs as [|a p]; [done|].
  rewrite <-(join_names a p) by done.
  rewrite <-path_join_app. apply join_names.
  change (a :: p ++ [file]) with ((a :: p) ++ [file]).
  apply Forall_app. split; [done|]. by constructor.
Qed.

Lemma sorted_wf files :
  Forall wf_name files → Forall wf_name (IndexGenerator.sorted files).
Proof.
  intros H. unfold IndexGenerator.sorted.
  by rewrite merge_sort_Permutation.
Qed.

(** The loop of [_processDirectory] adds the links of the files in order. *)
Lemma links_loop_spec rel segs : ∀ l self,
  Forall wf_name segs → Forall wf_name l → rel = rel_of segs →
  let self' :=
    fold_left
      (λ self file,
         let file :=
           if bool_decide (rel ≠ ".") then Path.join rel [file] else file in
         IndexGenerator.emit
           (IndexGenerator._generateLink file +:+ String "010" "")
           (Link file) self)
      l self in
  trace self' = trace self ++ (link_of segs <$> l)
  ∧ contents self' = contents self +:+ render (link_of segs <$> l)
  ∧ printed self' = printed self
  ∧ rootDirectory self' = rootDirectory self
  ∧ outputFile self' = outputFile self.
Proof.
  induction l as [|file l IH]; intros self Hs Hl ->.
  { simpl. by rewrite app_nil_r, str_app_nil_r. }
  inversion_clear Hl as [|?? Hf Hl'].
  cbn [fold_left fmap list_fmap].
  assert ((if bool_decide (rel_of segs ≠ ".")
           then Path.join (rel_of segs) [file] else file)
          = Str.join "/" (segs ++ [file])) as ->.
  { destruct segs as [|a p]; [done|].
    rewrite bool_decide_eq_true_2 by by apply join_names_not_curdir.
    by apply join_rel_file. }
  edestruct (IH (IndexGenerator.emit
               (IndexGenerator._generateLink (Str.join "/" (segs ++ [file]))
                +:+ String "010" "")
               (Link (Str.join "/" (segs ++ [file]))) self))
    as (Ht & Hc & Hp & Hr & Ho); [done..|].
  cbv zeta in Ht, Hc, Hp, Hr, Ho.
  rewrite Ht, Hc, Hp, Hr, Ho. simpl.
  split_and!; [|by rewrite !str_app_assoc|done..].
  by rewrite <-app_assoc.
Qed.

(** [_processDirectory] on the directory at path [segs]. *)
Lemma process_spec cwd root segs files self seen :
  Path.isabs cwd = true →
  Forall wf_name segs → Forall wf_name files →
  Forall (Forall wf_name) seen →
  rootDirectory self = root →
  printed self = list_to_set (Str.join "/" <$> seen) →
  let self' :=
    IndexGenerator._processDirectory cwd (Path.join root segs) files self in
  trace self' = trace self ++ block seen segs files
  ∧ contents self' = contents self +:+ render (block seen segs files)
  ∧ printed self' = list_to_set (Str.join "/" <$> (prefixes segs ++ seen))
  ∧ rootDirectory self' = root
  ∧ outputFile self' = outputFile self.
Proof.
  intros Hcwd Hs Hf Hseen Hroot Hpr.
  unfold IndexGenerator._processDirectory.
  rewrite Hroot, relpath_descendant by done.
  fold (rel_of segs).
  set (self1 := {| rootDirectory := root; outputFile := outputFile self;
                   contents := contents self; printed := printed self;
                   trace := trace self ++ [Visit (rel_of segs)] |}).
  set (self2 := if bool_decide (rel_of segs ≠ ".") then _ else self1).
  assert (trace self2 = trace self1
            ++ (heading_of <$> filter (λ p, p ∉ seen) (prefixes segs))
          ∧ contents self2 = contents self1
            +:+ render (heading_of <$> filter (λ p, p ∉ seen) (prefixes segs))
          ∧ printed self2 = list_to_set (Str.join "/" <$> (prefixes segs ++ seen))
          ∧ rootDirectory self2 = root
          ∧ outputFile self2 = outputFile self) as (Ht2 & Hc2 & Hp2 & Hr2 & Ho2).
  { unfold self2. destruct segs as [|a p].
    - simpl. by rewrite app_nil_r, str_app_nil_r.
    - rewrite bool_decide_eq_true_2 by by apply join_names_not_curdir.
      unfold IndexGenerator._addDirectoryHeadings, rel_of, Path.sep.
      rewrite split_join by (done || by apply wf_name_slash_free).
      apply (headings_loop_spec (a :: p) [] self1 seen); done. }
  destruct (links_loop_spec (rel_of segs) segs (IndexGenerator.sorted files) self2)
    as (Ht & Hc & Hp & Hr & Ho); [done|by apply sorted_wf|done|].
  cbv zeta in Ht, Hc, Hp, Hr, Ho.
  rewrite Ht, Hc, Hp, Hr, Ho, Ht2, Hc2, Hp2, Hr2, Ho2.
  unfold block. simpl.
  split_and!; [|by rewrite render_app, !str_app_assoc|done..].
  by rewrite <-!app_assoc.
Qed.

End ProcessFacts.

(** ** The whole run *)

Section RunFacts.

Lemma Forall_filter_keep {A} (P Q : A → Prop) `{!∀ x, Decision (Q x)} l :
  Forall P l → Forall P (filter Q l).
Proof.
  rewrite !Forall_forall. intros HP x [_ Hx]%list_elem_of_filter. by apply HP.
Qed.

Lemma elem_of_flat_map {A B} (f : A → list B) l y :
  y ∈ flat_map f l ↔ ∃ x, x ∈ l ∧ y ∈ f x.
Proof.
  rewrite list_elem_of_In, in_flat_map.
  by setoid_rewrite list_elem_of_In.
Qed.

Lemma visits_wf t : ∀ segs,
  wf_tree t = true → Forall wf_name segs →
  Forall wf_visit (visits segs t).
Proof.
  induction t as [dirs nondirs IH] using Tree_nested_ind.
  intros segs (_ & Hnames & Hsub)%wf_tree_node Hsegs.
  apply Forall_app in Hnames as [Hd Hf].
  cbn [visits]. apply Forall_app. split.
  - case_bool_decide; [|constructor]. constructor; [|constructor].
    split; [done|]. simpl. by apply Forall_filter_keep.
  - rewrite Forall_forall in IH, Hsub. apply Forall_forall.
    intros v (e & He & Hv)%elem_of_flat_map.
    case_bool_decide; [|by apply elem_of_nil in Hv].
    assert (Forall wf_visit (visits (segs ++ [e.1]) e.2)) as Hall.
    { apply IH; [done|by apply Hsub|]. apply Forall_app. split; [done|].
      constructor; [|done]. rewrite Forall_forall in Hd. apply Hd.
      by apply list_elem_of_In, in_map, list_elem_of_In. }
    rewrite Forall_forall in Hall. by apply Hall.
Qed.

Lemma prefixes_wf segs :
  Forall wf_name segs → Forall (Forall wf_name) (prefixes segs).
Proof. intros H. by apply prefixes_from_wf. Qed.

(** The loop of [generate] over a list of directories adds their blocks. *)
Lemma run_spec cwd root vs : ∀ self seen,
  Path.isabs cwd = true →
  Forall wf_visit vs →
  Forall (Forall wf_name) seen →
  rootDirectory self = root →
  printed self = list_to_set (Str.join "/" <$> seen) →
  let self' := fold_left (visit_step cwd root) vs self in
  trace self' = trace self ++ expected seen vs
  ∧ contents self' = contents self +:+ render (expected seen vs)
  ∧ rootDirectory self' = root
  ∧ outputFile self' = outputFile self.
Proof.
  induction vs as [|[segs fs] vs IH]; intros self seen Hcwd Hvs Hseen Hroot Hpr.
  { simpl. by rewrite app_nil_r, str_app_nil_r. }
  inversion_clear Hvs as [|?? [Hs Hf] Hvs']. simpl in Hs, Hf.
  cbn [fold_left expected].
  change (visit_step cwd root self (segs, fs))
    with (IndexGenerator._processDirectory cwd (Path.join root segs) fs self).
  destruct (process_spec cwd root segs fs self seen)
    as (Ht & Hc & Hp & Hr & Ho); [done..|].
  cbv zeta in Ht, Hc, Hp, Hr, Ho.
  edestruct (IH (IndexGenerator._processDirectory cwd (Path.join root segs) fs self)
               (prefixes segs ++ seen)) as (Ht' & Hc' & Hr' & Ho');
    [done|done| |done|done|].
  { apply Forall_app. split; [by apply prefixes_wf|done]. }
  cbv zeta in Ht', Hc', Hr', Ho'.
  rewrite Ht', Hc', Hr', Ho', Ht, Hc, Ho.
  split_and!; [|by rewrite render_app, str_app_assoc|done..].
  by rewrite <-app_assoc.
Qed.

(** The state [__init__] builds when the root exists. *)
Lemma init_exists root out g :
  IndexGenerator.__init__ true root out = inr g →
  g = {| rootDirectory := root; outputFile := out;
         contents := "# " +:+ Path.basename (Path.normpath root)
                     +:+ String "010" "";
         printed := ∅; trace := [] |}.
Proof. unfold IndexGenerator.__init__. simpl. by intros [= <-]. Qed.

(** The steps of [generate], and the text they add to the title. *)
Theorem generated_spec cwd root out t g :
  Path.isabs cwd = true → wf_tree t = true →
  IndexGenerator.__init__ true root out = inr g →
  trace (IndexGenerator.generated cwd t g) = expected [] (visits [] t)
  ∧ contents (IndexGenerator.generated cwd t g)
    = contents g +:+ render (expected [] (visits [] t))
  ∧ outputFile (IndexGenerator.generated cwd t g) = out.
Proof.
  intros Hcwd Hwf ->%init_exists.
  match goal with |- context [IndexGenerator.generated _ _ ?g0] => set (self := g0) end.
  unfold IndexGenerator.generated.
  change (rootDirectory self) with (Path.join root []).
  rewrite !walk_visits by done.
  destruct (run_spec cwd root (visits [] t) self []) as (Ht & Hc & _ & Ho);
    [done|by apply visits_wf|constructor|reflexivity|reflexivity|].
  cbv zeta in Ht, Hc, Ho. by rewrite Ht, Hc, Ho.
Qed.

End RunFacts.

(** ** The files of the index *)

Section ListedFacts.

Lemma listed_nonempty t p : listed t p → p ≠ [].
Proof. by destruct 1. Qed.

Lemma all_paths_app vs1 vs2 :
  all_paths (vs1 ++ vs2) = all_paths vs1 ++ all_paths vs2.
Proof. unfold all_paths. apply bind_app. Qed.

Lemma elem_of_all_paths vs q :
  q ∈ all_paths vs ↔ ∃ v f, v ∈ vs ∧ f ∈ snd v ∧ q = fst v ++ [f].
Proof.
  unfold all_paths. rewrite list_elem_of_bind. split.
  - intros (v & (f & -> & Hf)%list_elem_of_fmap & Hv). by exists v, f.
  - intros (v & f & Hv & Hf & ->). exists v. split; [|done].
    apply list_elem_of_fmap. by exists f.
Qed.

(** The processed directories hold exactly the files to be listed. *)
Lemma visits_listed t : ∀ segs q,
  q ∈ all_paths (visits segs t) ↔ ∃ p, listed t p ∧ q = segs ++ p.
Proof.
  induction t as [dirs nondirs IH] using Tree_nested_ind.
  intros segs q. rewrite Forall_forall in IH.
  cbn [visits]. rewrite all_paths_app, elem_of_app. split.
  - intros [H|H].
    + case_bool_decide; [|by apply elem_of_nil in H].
      apply elem_of_all_paths in H as (v & f & ->%list_elem_of_singleton & Hf & ->).
      simpl in *. apply list_elem_of_filter in Hf as [[Hmd Hne] Hf].
      exists [f]. split; [|done]. by constructor.
    + apply elem_of_all_paths in H as (v & f & Hv & Hf & ->).
      apply elem_of_flat_map in Hv as ([n sub] & He & Hv). simpl in Hv.
      case_bool_decide as Hex; [|by apply elem_of_nil in Hv].
      assert (v.1 ++ [f] ∈ all_paths (visits (segs ++ [n]) sub)) as Hq.
      { apply elem_of_all_paths. by exists v, f. }
      apply (IH _ He) in Hq as (p & Hp & ->).
      exists (n :: p). split; [by econstructor|]. by rewrite <-app_assoc.
  - intros (p & Hp & ->). inversion Hp as [??? Hf Hmd Hne|??? sub p' He Hex Hp']; subst.
    + left. rewrite bool_decide_eq_true_2.
      * apply elem_of_all_paths. eexists (segs, _), file.
        split_and!; [by left| |done]. simpl. by apply list_elem_of_filter.
      * intros E. assert (file ∈ filter (λ file, Str.endswith file ".md" = true
                             ∧ file ≠ "README.md") nondirs) as Hin
          by by apply list_elem_of_filter.
        rewrite E in Hin. by apply elem_of_nil in Hin.
    + right.
      assert ((segs ++ [name]) ++ p' ∈ all_paths (visits (segs ++ [name]) sub))
        as (v & f & Hv & Hf & E)%elem_of_all_paths.
      { apply (IH _ He). by exists p'. }
      apply elem_of_all_paths. exists v, f. split_and!; [|done|].
      * apply elem_of_flat_map. exists (name, sub). split; [done|]. simpl.
        by rewrite bool_decide_eq_true_2.
      * by rewrite <-E, <-app_assoc.
Qed.

(** No file is held twice. *)
Lemma visits_NoDup t : ∀ segs,
  wf_tree t = true → NoDup (all_paths (visits segs t)).
Proof.
  induction t as [dirs nondirs IH] using Tree_nested_ind.
  intros segs (Hnd & _ & Hsub)%wf_tree_node.
  apply NoDup_app in Hnd as (Hndd & _ & Hndf).
  rewrite Forall_forall in IH, Hsub.
  pose proof (visits_listed (Node dirs nondirs) segs) as Hall.
  cbn [visits] in *. rewrite all_paths_app in *.
  apply NoDup_app. split_and!.
  - case_bool_decide; [|constructor]. unfold all_paths. simpl.
    rewrite app_nil_r. apply NoDup_fmap_2; [|by apply NoDup_filter].
    intros f1 f2 E. by apply app_inj_1 in E as [_ [= ->]].
  - intros q Hq1 Hq2.
    case_bool_decide; [|by apply elem_of_nil in Hq1].
    apply elem_of_all_paths in Hq1 as (v & f & ->%list_elem_of_singleton & Hf & ->).
    apply elem_of_all_paths in Hq2 as (v & f' & Hv & Hf' & E).
    apply elem_of_flat_map in Hv as ([n sub] & He & Hv). simpl in *.
    case_bool_decide; [|by apply elem_of_nil in Hv].
    assert (v.1 ++ [f'] ∈ all_paths (visits (segs ++ [n]) sub)) as Hq.
    { apply elem_of_all_paths. by exists v, f'. }
    apply visits_listed in Hq as (p & Hp%listed_nonempty & E').
    rewrite <-E, <-app_assoc in E'. apply app_inv_head in E'.
    destruct p; [done|]. by destruct p.
  - clear Hall. revert Hndd IH Hsub.
    induction dirs as [|[n sub] dirs IHd]; intros Hndd IH Hsub; [constructor|].
    cbn [flat_map]. rewrite all_paths_app. simpl in Hndd.
    apply NoDup_cons in Hndd as [Hn Hndd].
    apply NoDup_app. split_and!.
    + simpl. case_bool_decide; [|constructor].
      apply (IH (n, sub)); [by left|]. apply (Hsub (n, sub)). by left.
    + intros q Hq1 Hq2. simpl in Hq1.
      case_bool_decide; [|by apply elem_of_nil in Hq1].
      apply visits_listed in Hq1 as (p & _ & ->).
      apply elem_of_all_paths in Hq2 as (v & f & Hv & Hf & E).
      apply elem_of_flat_map in Hv as ([n' sub'] & He & Hv). simpl in Hv.
      case_bool_decide; [|by apply elem_of_nil in Hv].
      assert (v.1 ++ [f] ∈ all_paths (visits (segs ++ [n']) sub')) as Hq.
      { apply elem_of_all_paths. by exists v, f. }
      apply visits_listed in Hq as (p' & _ & E').
      rewrite <-E, <-!app_assoc in E'. apply app_inv_head in E'.
      injection E' as -> _. apply Hn.
      apply list_elem_of_In, in_map_iff. exists (n', sub'). split; [done|].
      by apply list_elem_of_In.
    + apply IHd; [done|..]; intros e He; [apply IH|apply Hsub]; by right.
Qed.

Lemma all_paths_wf vs :
  Forall wf_visit vs → Forall (Forall wf_name) (all_paths vs).
Proof.
  rewrite !Forall_forall. intros H q (v & f & Hv & Hf & ->)%elem_of_all_paths.
  destruct (H v Hv) as [H1 H2]. apply Forall_app. split; [done|].
  constructor; [|done]. rewrite Forall_forall in H2. by apply H2.
Qed.

End ListedFacts.

(** ** The steps of a run *)

Section TraceFacts.

Lemma count_NoDup_le {A} `{EqDecision A} (l : list A) x :
  NoDup l → (length (filter (λ y, y = x) l) ≤ 1)%nat.
Proof.
  induction 1 as [|y l Hy _ IH]; [simpl; lia|].
  destruct (decide (y = x)) as [->|Hne].
  - rewrite filter_cons_True by done. simpl.
    assert (filter (λ y, y = x) l = []) as ->; [|simpl; lia].
    destruct (filter (λ y, y = x) l) as [|z l'] eqn:E; [done|].
    assert (z ∈ filter (λ y, y = x) l) as [-> ?]%list_elem_of_filter
      by (rewrite E; left).
    done.
  - by rewrite filter_cons_False.
Qed.

Lemma count_NoDup_elem {A} `{EqDecision A} (l : list A) x :
  NoDup l → x ∈ l → length (filter (λ y, y = x) l) = 1%nat.
Proof.
  intros Hnd Hx. pose proof (count_NoDup_le l x Hnd).
  destruct (filter (λ y, y = x) l) as [|z l'] eqn:E; [|simpl in *; lia].
  exfalso. by eapply (filter_nil_not_elem_of _ l x).
Qed.

Lemma links_app l1 l2 : links (l1 ++ l2) = links l1 ++ links l2.
Proof. apply omap_app. Qed.

Lemma heading_keys_app l1 l2 :
  heading_keys (l1 ++ l2) = heading_keys l1 ++ heading_keys l2.
Proof. apply omap_app. Qed.

Lemma links_headings (ps : list (list string)) : links (heading_of <$> ps) = [].
Proof. by induction ps. Qed.

Lemma links_links segs fs :
  links (link_of segs <$> fs) = (λ f, Str.join "/" (segs ++ [f])) <$> fs.
Proof. induction fs as [|f fs IH]; [done|]. csimpl. by rewrite IH. Qed.

Lemma heading_keys_headings (ps : list (list string)) :
  heading_keys (heading_of <$> ps) = Str.join "/" <$> ps.
Proof. induction ps as [|p ps IH]; [done|]. csimpl. by rewrite IH. Qed.

Lemma heading_keys_links segs fs : heading_keys (link_of segs <$> fs) = [].
Proof. by induction fs. Qed.

Lemma links_block seen segs fs :
  links (block seen segs fs)
  = (λ f, Str.join "/" (segs ++ [f])) <$> IndexGenerator.sorted fs.
Proof.
  unfold block. change (Visit ?d :: ?l) with ([Visit d] ++ l).
  by rewrite !links_app, links_headings, links_links.
Qed.

Lemma heading_keys_block seen segs fs :
  heading_keys (block seen segs fs)
  = Str.join "/" <$> filter (λ p, p ∉ seen) (prefixes segs).
Proof.
  unfold block. change (Visit ?d :: ?l) with ([Visit d] ++ l).
  rewrite !heading_keys_app, heading_keys_headings, heading_keys_links.
  by rewrite app_nil_r.
Qed.

(** The links of a run are those of the kept files, up to their order
    inside each directory. *)
Lemma links_expected vs : ∀ seen,
  links (expected seen vs) ≡ₚ Str.join "/" <$> all_paths vs.
Proof.
  induction vs as [|[segs fs] vs IH]; intros seen; [done|].
  cbn [expected]. rewrite links_app, links_block, IH.
  unfold all_paths. rewrite bind_cons, fmap_app. simpl.
  rewrite <-list_fmap_compose. apply Permutation_app_tail.
  unfold IndexGenerator.sorted. by rewrite merge_sort_Permutation.
Qed.

Lemma elem_of_links tr f : f ∈ links tr ↔ Link f ∈ tr.
Proof.
  unfold links. rewrite list_elem_of_omap. split.
  - intros (e & He & E). destruct e; by simplify_eq.
  - intros H. by exists (Link f).
Qed.

Lemma elem_of_heading_keys tr k :
  k ∈ heading_keys tr ↔ ∃ lvl part, Heading k lvl part ∈ tr.
Proof.
  unfold heading_keys. rewrite list_elem_of_omap. split.
  - intros (e & He & E). destruct e; simplify_eq. eauto.
  - intros (lvl & part & H). by exists (Heading k lvl part).
Qed.

Lemma prefixes_from_NoDup acc parts : NoDup (prefixes_from acc parts).
Proof.
  revert acc. induction parts as [|part parts IH]; intros acc; simpl.
  - constructor.
  - constructor; [|apply IH]. intros H%prefixes_from_length. lia.
Qed.

(** Each step of a run belongs to a processed directory. *)
Lemma elem_of_expected vs : ∀ seen e,
  e ∈ expected seen vs →
  ∃ v, v ∈ vs
       ∧ (e = Visit (rel_of (fst v))
          ∨ (∃ p, p ∈ prefixes (fst v) ∧ (p ∉ seen) ∧ e = heading_of p)
          ∨ (∃ f, f ∈ snd v ∧ e = link_of (fst v) f)).
Proof.
  induction vs as [|[segs fs] vs IH]; intros seen e; [by intros ?%elem_of_nil|].
  cbn [expected]. unfold block.
  rewrite elem_of_app, elem_of_cons, elem_of_app. intros [[->|[H|H]]|H].
  - exists (segs, fs). split; [by left|]. by left.
  - apply list_elem_of_fmap in H as (p & -> & [Hp1 Hp2]%list_elem_of_filter).
    exists (segs, fs). split; [by left|]. right. left. by exists p.
  - apply list_elem_of_fmap in H as (f & -> & Hf).
    exists (segs, fs). split; [by left|]. right. right. exists f. split; [|done].
    unfold IndexGenerator.sorted in Hf. by rewrite merge_sort_Permutation in Hf.
  - apply IH in H as (v & Hv & H). exists v. split; [by right|].
    destruct H as [?|[(p & ? & Hp & ?)|?]]; [by left| |by right; right].
    right. left. exists p. split_and!; [done| |done].
    intros ?. apply Hp. apply elem_of_app. by right.
Qed.

(** No key has two headings, and none that had one before. *)
Lemma heading_keys_NoDup vs : ∀ seen,
  Forall wf_visit vs → Forall (Forall wf_name) seen →
  NoDup (heading_keys (expected seen vs)).
Proof.
  induction vs as [|[segs fs] vs IH]; intros seen Hvs Hseen; [constructor|].
  inversion_clear Hvs as [|?? [Hs Hf] Hvs']. simpl in Hs, Hf.
  cbn [expected]. rewrite heading_keys_app, heading_keys_block.
  pose proof (prefixes_wf segs Hs) as Hpw. rewrite Forall_forall in Hpw.
  apply NoDup_app. split_and!.
  - apply NoDup_fmap_2_strong; [|apply NoDup_filter, prefixes_from_NoDup].
    intros p q [_ Hp]%list_elem_of_filter [_ Hq]%list_elem_of_filter.
    apply join_key_inj; by apply Hpw.
  - intros k (p & -> & [_ Hp]%list_elem_of_filter)%list_elem_of_fmap
      (lvl & part & (v & Hv & H)%elem_of_expected)%elem_of_heading_keys.
    rewrite Forall_forall in Hvs'. destruct (Hvs' v Hv) as [Hv1 _].
    destruct H as [?|[(q & Hq1 & Hq2 & E)|(f & _ & ?)]]; [done| |done].
    injection E as E _ _. apply join_key_inj in E; [|by apply Hpw|].
    + subst q. apply Hq2, elem_of_app. by left.
    + pose proof (prefixes_wf _ Hv1) as Hqw. rewrite Forall_forall in Hqw.
      by apply Hqw.
  - apply IH; [done|]. apply Forall_app. split; [by apply prefixes_wf|done].
Qed.

(** Every prefix of a processed directory has its heading. *)
Lemma heading_keys_cover vs : ∀ seen v p,
  v ∈ vs → p ∈ prefixes (fst v) →
  p ∈ seen ∨ heading_of p ∈ expected seen vs.
Proof.
  induction vs as [|[segs fs] vs IH]; intros seen v p Hv Hp;
    [by apply elem_of_nil in Hv|].
  cbn [expected]. unfold block.
  destruct (decide (p ∈ seen)) as [?|Hns]; [by left|]. right.
  apply elem_of_cons in Hv as [->|Hv].
  - apply elem_of_app. left. right. apply elem_of_app. left.
    apply list_elem_of_fmap_2. by apply list_elem_of_filter.
  - destruct (IH (prefixes segs ++ seen) v p Hv Hp) as [[H|H]%elem_of_app|H].
    + apply elem_of_app. left. right. apply elem_of_app. left.
      apply list_elem_of_fmap_2. by apply list_elem_of_filter.
    + done.
    + apply elem_of_app. by right.
Qed.

Lemma dir_keys_rel_of segs :
  Forall wf_name segs → dir_keys (rel_of segs) = Str.join "/" <$> prefixes segs.
Proof.
  intros Hs. unfold dir_keys. destruct segs as [|a p]; [done|].
  unfold rel_of. rewrite bool_decide_eq_false_2 by by apply join_names_not_curdir.
  by rewrite split_join by (done || by apply wf_name_slash_free).
Qed.

End TraceFacts.

(** ** Base names and extensions *)

Section LinkFacts.

Lemma rfind_from_absent c s i : has_char c s = false → Str.rfind_from c s i = -1.
Proof.
  revert i. induction s as [|a s IH]; intros i; [done|].
  cbn [has_char Str.rfind_from]. intros [Ha Hs]%orb_false_iff.
  by rewrite (IH _ Hs), Ha.
Qed.

Lemma rfind_from_last c s t i :
  0 ≤ i → has_char c t = false →
  Str.rfind_from c (s +:+ String c t) i = i + Z.of_nat (String.length s).
Proof.
  intros Hi Ht. revert i Hi. induction s as [|a s IH]; intros i Hi.
  - rewrite str_app_nil_l. cbn [Str.rfind_from String.length].
    rewrite (rfind_from_absent _ _ _ Ht), Ascii.eqb_refl. simpl. lia.
  - rewrite str_app_cons. cbn [Str.rfind_from String.length].
    rewrite IH by lia.
    destruct (Z.leb_spec 0 (i + 1 + Z.of_nat (String.length s))); lia.
Qed.

Lemma basename_name name :
  has_char "/" name = false → Path.basename name = name.
Proof.
  intros H. unfold Path.basename, Str.rfind, Str.slice_from, Path.sep.
  rewrite (rfind_from_absent _ _ _ H). simpl.
  rewrite Nat.sub_0_r. apply substring_all.
Qed.

Lemma basename_join p name :
  has_char "/" name = false → Path.basename (p +:+ "/" +:+ name) = name.
Proof.
  intros H. unfold Path.basename, Str.rfind, Str.slice_from, Path.sep.
  change ("/" +:+ name) with (String "/" name).
  rewrite (rfind_from_last _ _ _ _ (Z.le_refl 0) H).
  replace (Z.to_nat (0 + Z.of_nat (String.length p) + 1))
    with (String.length (p +:+ "/")) by (rewrite str_app_length; simpl; lia).
  change (p +:+ String "/" name) with (p +:+ "/" +:+ name).
  rewrite <-str_app_assoc, substring_skip_app.
  rewrite (str_app_length (p +:+ "/")).
  replace (String.length (p +:+ "/") + String.length name
           - String.length (p +:+ "/"))%nat with (String.length name) by lia.
  apply substring_all.
Qed.

(** The base name of a path is its last name. *)
Lemma basename_path segs name :
  has_char "/" name = false →
  Path.basename (Str.join "/" (segs ++ [name])) = name.
Proof.
  intros H. destruct segs as [|a p]; [by apply basename_name|].
  rewrite join_snoc by done. by apply basename_join.
Qed.

Lemma substring_char_at s a r :
  String.substring (String.length s) 1 (s +:+ String a r) = String a "".
Proof. rewrite substring_skip_app. simpl. by destruct r. Qed.

Lemma splitext_scan_spec p d s2 : ∀ s1 rest,
  p = s1 +:+ s2 +:+ rest →
  Path.splitext_scan p d (Z.of_nat (String.length s1)) (String.length s2)
  = if all_dots s2 then (p, "") else (Str.slice_to p d, Str.slice_from p d).
Proof.
  induction s2 as [|a s2 IH]; intros s1 rest Hp; [done|].
  cbn [String.length Path.splitext_scan all_dots].
  rewrite Nat2Z.id. rewrite Hp at 1. rewrite str_app_cons, substring_char_at.
  unfold Path.extsep.
  destruct (Ascii.eqb_spec a ".") as [->|Hne].
  - simpl. specialize (IH (s1 +:+ ".") rest).
    rewrite str_app_length in IH. simpl in IH.
    replace (Z.of_nat (String.length s1) + 1)
      with (Z.of_nat (String.length s1 + 1)) by lia.
    apply IH. by rewrite Hp, str_app_assoc.
  - assert (String.eqb (String a "") "." = false) as ->; [|done].
    apply String.eqb_neq. by intros [= ->].
Qed.

(** [os.path.splitext] on a name with a dot: the extension starts at the
    last dot, unless only dots precede it. *)
Lemma splitext_name stem ext :
  has_char "/" (stem +:+ "." +:+ ext) = false → has_char "." ext = false →
  Path.splitext (stem +:+ "." +:+ ext)
  = if all_dots stem then (stem +:+ "." +:+ ext, "")
    else (stem, "." +:+ ext).
Proof.
  intros Hs He. unfold Path.splitext, Str.rfind, Path.sep, Path.extsep.
  rewrite (rfind_from_absent _ _ _ Hs).
  change ("." +:+ ext) with (String "." ext).
  rewrite (rfind_from_last _ _ _ _ (Z.le_refl 0) He).
  destruct (Z.ltb_spec (-1) (0 + Z.of_nat (String.length stem))); [|lia].
  replace (Z.to_nat (0 + Z.of_nat (String.length stem) - (-1 + 1)))
    with (String.length stem) by lia.
  change (-1 + 1) with (Z.of_nat (String.length "")).
  rewrite (splitext_scan_spec _ _ stem "" (String "." ext)) by done.
  destruct (all_dots stem); [done|].
  unfold Str.slice_to, Str.slice_from.
  replace (Z.to_nat (0 + Z.of_nat (String.length stem)))
    with (String.length stem) by lia.
  rewrite substring_0_app, substring_skip_app, str_app_length.
  replace (String.length stem + String.length (String "." ext)
           - String.length stem)%nat
    with (String.length (String "." ext)) by lia.
  by rewrite substring_all.
Qed.

Lemma strip_md_app stem : strip_md (stem +:+ ".md") = stem.
Proof.
  unfold strip_md. rewrite str_app_length. simpl.
  replace (String.length stem + 3 - 3)%nat with (String.length stem) by lia.
  apply substring_0_app.
Qed.

Lemma generateLink_posix file :
  IndexGenerator._generateLink file
  = "- [" +:+ fst (Path.splitext (Path.basename file)) +:+ "]("
    +:+ Str.replace "/" "/" file +:+ ")".
Proof. reflexivity. Qed.

Lemma replace_app old new s t :
  Str.replace old new (s +:+ t) = Str.replace old new s +:+ Str.replace old new t.
Proof.
  induction s as [|a s IH]; [by rewrite !str_app_nil_l|].
  rewrite str_app_cons. cbn [Str.replace]. rewrite IH.
  destruct (Ascii.eqb a old); [by rewrite str_app_assoc|by rewrite str_app_cons].
Qed.

Lemma replace_absent old new s :
  has_char old s = false → Str.replace old new s = s.
Proof.
  induction s as [|a s IH]; [done|]. cbn [has_char Str.replace].
  intros [-> Hs]%orb_false_iff. by rewrite IH.
Qed.

(** Replacing the separator in a path joined by it gives the path joined
    by the new separator. *)
Lemma replace_join old new names :
  Forall (λ n, has_char old n = false) names →
  Str.replace old new (Str.join (String old "") names) = Str.join new names.
Proof.
  induction 1 as [|n names Hn Hnames IH]; [done|].
  destruct names as [|m names]; [by apply replace_absent|].
  rewrite !join_cons by done. rewrite !replace_app, IH, replace_absent by done.
  cbn [Str.replace]. by rewrite Ascii.eqb_refl, str_app_nil_r.
Qed.

(** [_generateLink] on the path of a file named [*.md]. *)
Lemma generateLink_path segs name :
  Forall wf_name segs → wf_name name → Str.endswith name ".md" = true →
  IndexGenerator._generateLink (Str.join "/" (segs ++ [name]))
  = "- [" +:+ fst (Path.splitext name) +:+ "]("
    +:+ Str.join "/" (segs ++ [name]) +:+ ")"
  ∧ fst (Path.splitext name) +:+ snd (Path.splitext name) = name
  ∧ snd (Path.splitext name)
    = if all_dots (strip_md name) then "" else ".md".
Proof.
  intros Hs (_ & _ & _ & Hn) [stem ->]%endswith_spec.
  rewrite generateLink_posix.
  rewrite replace_same, basename_path by done.
  rewrite strip_md_app.
  change (stem +:+ ".md") with (stem +:+ "." +:+ "md") in *.
  rewrite splitext_name by done.
  destruct (all_dots stem); simpl; by rewrite ?str_app_nil_r.
Qed.

(** The text of a link, as the index has it, is what [os.path.splitext]
    leaves of the name. *)
Lemma link_text_path segs name :
  Forall wf_name segs → wf_name name → Str.endswith name ".md" = true →
  link_text (Str.join "/" (segs ++ [name])) = fst (Path.splitext name).
Proof.
  intros Hs Hn Hmd.
  destruct (generateLink_path segs name Hs Hn Hmd) as (_ & Hsplit & Hext).
  unfold link_text.
  rewrite split_join; [|by destruct segs|].
  2:{ apply wf_name_slash_free, Forall_app. split; [done|by constructor]. }
  rewrite last_last. cbv zeta. rewrite Hext in Hsplit.
  set (text := fst (Path.splitext name)) in *. clearbody text.
  destruct (all_dots (strip_md name)).
  - by rewrite str_app_nil_r in Hsplit.
  - rewrite <-Hsplit. apply strip_md_app.
Qed.

Lemma index_line_link segs name :
  Forall wf_name segs → wf_name name → Str.endswith name ".md" = true →
  render_event (Link (Str.join "/" (segs ++ [name])))
  = index_line (Link (Str.join "/" (segs ++ [name]))).
Proof.
  intros Hs Hn Hmd. cbn [render_event index_line].
  destruct (generateLink_path segs name Hs Hn Hmd) as (-> & _ & _).
  rewrite link_text_path by done. by rewrite !str_app_assoc.
Qed.

End LinkFacts.

(** ** The order of the steps *)

Section OrderFacts.

Lemma app_split_elem {A} (l1 l2 pre : list A) e post :
  l1 ++ l2 = pre ++ e :: post →
  (∃ m, l1 = pre ++ e :: m ∧ post = m ++ l2)
  ∨ (∃ m, pre = l1 ++ m ∧ l2 = m ++ e :: post).
Proof.
  intros [(k & -> & E)|(k & -> & ->)]%app_eq_inv.
  - destruct k as [|x k].
    + right. exists []. simpl in E. subst l2. by rewrite !app_nil_r.
    + injection E as -> ->. left. by exists k.
  - right. by exists k.
Qed.

Lemma fmap_split_elem {A B} (f : A → B) l pre e post :
  f <$> l = pre ++ e :: post →
  ∃ l1 x l2, l = l1 ++ x :: l2 ∧ pre = f <$> l1 ∧ e = f x ∧ post = f <$> l2.
Proof.
  intros (l1 & l2' & -> & (x & l2 & -> & -> & ->)%eq_sym%fmap_cons_inv & ->)%fmap_app_inv.
  by exists l1, x, l2.
Qed.

(** Where a step of the first directory, or of a later one, stands. *)
Lemma block_split seen segs fs rest pre e post :
  block seen segs fs ++ rest = pre ++ e :: post →
  (pre = [] ∧ e = Visit (rel_of segs))
  ∨ (∃ l1 p l2,
       filter (λ p, p ∉ seen) (prefixes segs) = l1 ++ p :: l2
       ∧ e = heading_of p
       ∧ pre = Visit (rel_of segs) :: (heading_of <$> l1))
  ∨ (∃ l1 f l2,
       IndexGenerator.sorted fs = l1 ++ f :: l2
       ∧ e = link_of segs f
       ∧ pre = Visit (rel_of segs)
               :: (heading_of <$> filter (λ p, p ∉ seen) (prefixes segs))
               ++ (link_of segs <$> l1))
  ∨ (∃ m, pre = block seen segs fs ++ m ∧ rest = m ++ e :: post).
Proof.
  unfold block. intros E.
  destruct pre as [|x pre]; [injection E as <- _; by left|].
  injection E as <- E. right.
  rewrite <-app_assoc in E.
  apply app_split_elem in E as [(m & E & _)|(m & -> & E)].
  { left. apply fmap_split_elem in E as (l1 & p & l2 & E & -> & -> & _).
    by exists l1, p, l2. }
  right. apply app_split_elem in E as [(m' & E & _)|(m' & -> & E)].
  - left. apply fmap_split_elem in E as (l1 & f & l2 & E & -> & -> & _).
    by exists l1, f, l2.
  - right. exists m'. split; [|done]. simpl. by rewrite <-app_assoc.
Qed.

Lemma prefixes_from_sorted acc parts :
  StronglySorted (λ p q : list string, (length p < length q)%nat)
    (prefixes_from acc parts).
Proof.
  revert acc. induction parts as [|part parts IH]; intros acc; simpl.
  - constructor.
  - constructor; [apply IH|]. apply Forall_forall.
    intros q Hq%prefixes_from_length. rewrite length_app in *. simpl in *. lia.
Qed.

Lemma StronglySorted_filter_keep {A} (R : relation A) (P : A → Prop)
    `{!∀ x, Decision (P x)} l :
  StronglySorted R l → StronglySorted R (filter P l).
Proof.
  induction 1 as [|x l _ IH Hx]; [constructor|].
  destruct (decide (P x)).
  - rewrite filter_cons_True by done. constructor; [done|].
    by apply Forall_filter_keep.
  - by rewrite filter_cons_False.
Qed.

(** Among the new headings of a directory, a shorter prefix comes first. *)
Lemma shorter_prefix_first (seen : list (list string)) segs l1 p l2 q :
  filter (λ p, p ∉ seen) (prefixes segs) = l1 ++ p :: l2 →
  q ∈ prefixes segs → (length q < length p)%nat →
  q ∈ seen ∨ q ∈ l1.
Proof.
  intros E Hq Hlen. destruct (decide (q ∈ seen)) as [?|Hns]; [by left|]. right.
  assert (q ∈ l1 ++ p :: l2) as [?|[->|Hq2]%elem_of_cons]%elem_of_app;
    [rewrite <-E; by apply list_elem_of_filter|done|lia|].
  pose proof (StronglySorted_filter_keep _ (λ p, p ∉ seen) _
                (prefixes_from_sorted [] segs)) as Hs.
  fold (prefixes segs) in Hs. rewrite E in Hs.
  apply StronglySorted_app_1_r, StronglySorted_cons in Hs as [Hs _].
  rewrite Forall_forall in Hs. specialize (Hs q Hq2). lia.
Qed.

Lemma proper_prefix_in_prefixes (q rest segs : list string) f :
  q ≠ [] → rest ≠ [] → segs ++ [f] = q ++ rest → q ∈ prefixes segs.
Proof.
  intros Hq Hr E. apply prefixes_spec. split; [done|].
  destruct rest as [|x rest _] using rev_ind; [done|].
  rewrite app_assoc in E. apply app_inj_2 in E as [-> _]; [|done].
  by apply prefix_app_r.
Qed.

(** The heading of a directory comes before every link and every heading
    beneath it. *)
Lemma parent_heading_first vs : ∀ seen q rest pre e post,
  Forall wf_visit vs →
  expected seen vs = pre ++ e :: post →
  q ≠ [] → rest ≠ [] → Forall wf_name (q ++ rest) →
  (e = Link (Str.join "/" (q ++ rest))
   ∨ ∃ lvl part, e = Heading (Str.join "/" (q ++ rest)) lvl part) →
  q ∈ seen ∨ heading_of q ∈ pre.
Proof.
  induction vs as [|[segs fs] vs IH]; intros seen q rest pre e post Hvs E Hq Hr Hwf He.
  { by destruct pre. }
  inversion_clear Hvs as [|?? [Hs Hf] Hvs']. simpl in Hs, Hf.
  cbn [expected] in E.
  assert (∀ l, q ∈ prefixes segs →
            q ∈ seen ∨ heading_of q
              ∈ Visit (rel_of segs)
                :: (heading_of <$> filter (λ p, p ∉ seen) (prefixes segs)) ++ l)
    as Hblock.
  { intros l Hin. destruct (decide (q ∈ seen)); [by left|]. right. right.
    apply elem_of_app. left. apply list_elem_of_fmap_2.
    by apply list_elem_of_filter. }
  apply block_split in E
    as [[-> ->]|[(l1 & p & l2 & E & -> & ->)|[(l1 & f & l2 & E & -> & ->)|(m & -> & E)]]].
  - by destruct He as [?|(? & ? & ?)].
  - destruct He as [?|(lvl & part & [= Hk _ _])]; [done|].
    assert (p ∈ prefixes segs) as Hp.
    { assert (p ∈ l1 ++ p :: l2) as Hin by (apply elem_of_app; right; left).
      rewrite <-E in Hin. by apply list_elem_of_filter in Hin as [_ ?]. }
    assert (p = q ++ rest) as ->.
    { apply join_key_inj; [|done..].
      pose proof (prefixes_wf segs Hs) as Hpw. rewrite Forall_forall in Hpw.
      by apply Hpw. }
    destruct (shorter_prefix_first seen segs l1 (q ++ rest) l2 q E) as [?|Hin].
    + apply prefixes_spec in Hp as [_ Hp]. apply prefixes_spec. split; [done|].
      etrans; [|exact Hp]. by apply prefix_app_r.
    + rewrite length_app. destruct rest; [done|]. simpl. lia.
    + by left.
    + right. right. by apply list_elem_of_fmap_2.
  - destruct He as [[= Hk]|(? & ? & ?)]; [|done].
    assert (wf_name f) as Hfw.
    { assert (f ∈ IndexGenerator.sorted fs) as Hin
        by (rewrite E; apply elem_of_app; right; left).
      pose proof (sorted_wf fs Hf) as Hsw. rewrite Forall_forall in Hsw.
      by apply Hsw. }
    assert (segs ++ [f] = q ++ rest) as Hk'.
    { apply join_key_inj; [|done..]. apply Forall_app. split; [done|by constructor]. }
    apply (Hblock (link_of segs <$> l1)).
    by eapply proper_prefix_in_prefixes.
  - destruct (IH (prefixes segs ++ seen) q rest m e post Hvs' E Hq Hr Hwf He)
      as [[Hin|Hin]%elem_of_app|Hin].
    + destruct (Hblock ((link_of segs <$> IndexGenerator.sorted fs) ++ m) Hin)
        as [?|Hin']; [by left|]. right. unfold block. simpl.
      by rewrite <-app_assoc.
    + by left.
    + right. apply elem_of_app. by right.
Qed.

Lemma Forall_is_heading_headings (ps : list (list string)) :
  Forall is_heading (heading_of <$> ps).
Proof. apply Forall_fmap, Forall_forall. by intros. Qed.

(** A heading is added while the first directory beneath it is processed. *)
Lemma heading_at_first_visit vs : ∀ seen pre e post,
  expected seen vs = pre ++ e :: post → is_heading e →
  ∃ pre' v hs p,
    pre = pre' ++ Visit (rel_of (fst v)) :: hs
    ∧ v ∈ vs ∧ p ∈ prefixes (fst v) ∧ (p ∉ seen) ∧ e = heading_of p
    ∧ Forall is_heading hs
    ∧ ∀ d, Visit d ∈ pre' →
           ∃ v', v' ∈ vs ∧ d = rel_of (fst v') ∧ p ∉ prefixes (fst v').
Proof.
  induction vs as [|[segs fs] vs IH]; intros seen pre e post E He.
  { by destruct pre. }
  cbn [expected] in E.
  apply block_split in E
    as [[-> ->]|[(l1 & p & l2 & E & -> & ->)|[(l1 & f & l2 & E & -> & ->)|(m & -> & E)]]];
    [done| |done|].
  - assert (p ∈ filter (λ p, p ∉ seen) (prefixes segs))
      as [Hns Hp]%list_elem_of_filter
      by (rewrite E; apply elem_of_app; right; left).
    exists [], (segs, fs), (heading_of <$> l1), p.
    split_and!; [done|by left|done..|apply Forall_is_heading_headings|].
    by intros d ?%elem_of_nil.
  - destruct (IH _ _ _ _ E He)
      as (pre' & v & hs & p & -> & Hv & Hp & Hns & -> & Hhs & Hfirst).
    exists (block seen segs fs ++ pre'), v, hs, p.
    split_and!; [by rewrite <-app_assoc|by right|done| |done|done|].
    { intros ?. apply Hns, elem_of_app. by right. }
    intros d [Hd|Hd]%elem_of_app.
    + exists (segs, fs). split; [by left|]. simpl.
      split; [|intros ?; apply Hns, elem_of_app; by left].
      unfold block in Hd.
      apply elem_of_cons in Hd as [[= ->]|[Hd|Hd]%elem_of_app]; [done|..].
      * by apply list_elem_of_fmap in Hd as (? & ? & _).
      * by apply list_elem_of_fmap in Hd as (? & ? & _).
    + destruct (Hfirst d Hd) as (v' & ? & ? & ?). exists v'. by split_and!; [right|..].
Qed.

(** The steps of a run, directory by directory. *)
Lemma expected_groups vs : ∀ seen,
  ∃ groups,
    expected seen vs = concat (group_events <$> groups)
    ∧ Forall2 (λ g v, group_dir g = fst v
                      ∧ Forall is_heading (group_headings g)
                      ∧ group_names g = IndexGenerator.sorted (snd v))
              groups vs.
Proof.
  induction vs as [|[segs fs] vs IH]; intros seen.
  { exists []. split; [done|constructor]. }
  destruct (IH (prefixes segs ++ seen)) as (groups & E & Hg).
  exists ({| group_dir := segs;
             group_headings := heading_of <$> filter (λ p, p ∉ seen) (prefixes segs);
             group_names := IndexGenerator.sorted fs |} :: groups).
  split.
  - cbn [expected]. by rewrite E.
  - constructor; [|done]. simpl. split_and!; [done| |done].
    apply Forall_is_heading_headings.
Qed.

Lemma sorted_sorted l : StronglySorted String.le (IndexGenerator.sorted l).
Proof. unfold IndexGenerator.sorted. apply StronglySorted_merge_sort; apply _. Qed.

Lemma sorted_perm l : IndexGenerator.sorted l ≡ₚ l.
Proof. unfold IndexGenerator.sorted. apply merge_sort_Permutation. Qed.

(** Every processed directory of a subtree lies at or beneath its root. *)
Lemma visits_prefix t : ∀ segs v, v ∈ visits segs t → segs `prefix_of` fst v.
Proof.
  induction t as [dirs nondirs IH] using Tree_nested_ind.
  intros segs v. rewrite Forall_forall in IH. cbn [visits].
  intros [H|H]%elem_of_app.
  - case_bool_decide; [|by apply elem_of_nil in H].
    by apply list_elem_of_singleton in H as ->.
  - apply elem_of_flat_map in H as (e & He & H).
    case_bool_decide; [|by apply elem_of_nil in H].
    apply (IH e He) in H. etrans; [|exact H]. by apply prefix_app_r.
Qed.

Lemma has_char_join_deep (segs : list string) f :
  segs ≠ [] → has_char "/" (Str.join "/" (segs ++ [f])) = true.
Proof.
  intros Hne. rewrite join_snoc by done.
  rewrite !has_char_app. simpl. by rewrite orb_true_r.
Qed.

End OrderFacts.

(** ** The index *)

Lemma listed_last t p :
  listed t p → ∃ segs name, p = segs ++ [name]
                            ∧ Str.endswith name ".md" = true ∧ name ≠ "README.md".
Proof.
  induction 1 as [dirs nondirs file _ Hmd Hne|dirs nondirs n sub p _ _ _ IH].
  - by exists [], file.
  - destruct IH as (segs & name & -> & ? & ?). by exists (n :: segs), name.
Qed.

Lemma listed_wf t p : wf_tree t = true → listed t p → Forall wf_name p.
Proof.
  intros Hwf Hp.
  assert (p ∈ all_paths (visits [] t)) as Hin.
  { apply visits_listed. by exists p. }
  pose proof (all_paths_wf _ (visits_wf t [] Hwf (Forall_nil_2 _))) as Hall.
  rewrite Forall_forall in Hall. by apply Hall.
Qed.

Lemma links_NoDup t seen :
  wf_tree t = true → NoDup (links (expected seen (visits [] t))).
Proof.
  intros Hwf. rewrite links_expected.
  pose proof (all_paths_wf _ (visits_wf t [] Hwf (Forall_nil_2 _))) as Hall.
  rewrite Forall_forall in Hall.
  apply NoDup_fmap_2_strong; [|by apply visits_NoDup].
  intros p q Hp Hq. apply join_key_inj; by apply Hall.
Qed.

Lemma index_text_app tr1 tr2 :
  index_text (tr1 ++ tr2) = index_text tr1 +:+ index_text tr2.
Proof.
  induction tr1 as [|e tr1 IH]; [by rewrite str_app_nil_l|].
  cbn [app index_text foldr]. fold (index_text (tr1 ++ tr2)) (index_text tr1).
  by rewrite IH, str_app_assoc.
Qed.

Lemma render_index_text tr :
  Forall (λ e, render_event e = index_line e) tr → render tr = index_text tr.
Proof.
  induction 1 as [|e tr He _ IH]; [done|].
  cbn [render index_text foldr]. fold (render tr) (index_text tr).
  by rewrite He, IH.
Qed.

(** The text the steps of a run add is the text of their lines. *)
Lemma render_expected t seen :
  wf_tree t = true →
  render (expected seen (visits [] t)) = index_text (expected seen (visits [] t)).
Proof.
  intros Hwf. apply render_index_text, Forall_forall.
  intros [d|key lvl part|file] He; [done..|].
  apply elem_of_links in He. rewrite links_expected in He.
  apply list_elem_of_fmap in He as (q & -> & (p & Hp & ->)%visits_listed).
  change ([] ++ p) with p.
  pose proof (listed_wf _ _ Hwf Hp) as Hpw.
  destruct (listed_last _ _ Hp) as (segs & name & -> & Hmd & _).
  apply Forall_app in Hpw as [Hs Hn]. inversion_clear Hn as [|?? Hn' _].
  by apply index_line_link.
Qed.

(** The file a run writes: the title line, the lines of its steps, the
    footer. *)
Lemma written_index cwd root out t g :
  Path.isabs cwd = true → wf_tree t = true →
  IndexGenerator.__init__ true root out = inr g →
  IndexGenerator.generate cwd t g
  = (out, contents g
          +:+ index_text (trace (IndexGenerator.generated cwd t g)) +:+ footer).
Proof.
  intros Hcwd Hwf Hg.
  destruct (generated_spec cwd root out t g Hcwd Hwf Hg) as (Ht & Hc & Ho).
  unfold IndexGenerator.generate, IndexGenerator._writeToFile.
  rewrite Ho, Hc, Ht, render_expected by done. by rewrite str_app_assoc.
Qed.

(** A run that can open its file and encode its text ends well. *)
Lemma main_run cwd t directory g :
  IndexGenerator.__init__ true
    (Path.abspath cwd (default "." directory))
    (Path.join (Path.abspath cwd (default "." directory)) ["README.md"])
  = inr g →
  "README.md" ∉ map fst (subdirs t) →
  Str.encodable (snd (IndexGenerator.generate cwd t g)) = true →
  main cwd (Some t) directory
  = {| stdout := ""; stderr := ""; exit_status := 0;
       written := [IndexGenerator.generate cwd t g];
       uncaught := None |}.
Proof.
  intros Hg Hdir Henc. unfold main. rewrite Hg.
  destruct (IndexGenerator.generate cwd t g) as [file data].
  rewrite bool_decide_eq_false_2 by done. cbn [snd] in Henc. by rewrite Henc.
Qed.

(** C1: every file named [*.md], other than [README.md] and outside the
    directories named [.git] or [.github], has exactly one link in the
    index, and every link of the index is the link of such a file; the file
    written is the title line, then the line of each step, a link being the
    bullet line [- [text](path)], then the footer. *)
Theorem listed_files_linked_once cwd root out t g :
  Path.isabs cwd = true → wf_tree t = true →
  IndexGenerator.__init__ true root out = inr g →
  let tr := trace (IndexGenerator.generated cwd t g) in
  (∀ p, listed t p → link_count (Str.join "/" p) tr = 1%nat)
  ∧ (∀ file, Link file ∈ tr → ∃ p, listed t p ∧ file = Str.join "/" p)
  ∧ IndexGenerator.generate cwd t g
    = (out, contents g +:+ index_text tr +:+ footer).
Proof.
  intros Hcwd Hwf Hg tr.
  pose proof (written_index cwd root out t g Hcwd Hwf Hg) as Hw.
  destruct (generated_spec cwd root out t g Hcwd Hwf Hg) as (Ht & Hc & Ho).
  subst tr. rewrite Ht in *. split_and!.
  - intros p Hp. unfold link_count. apply count_NoDup_elem; [by apply links_NoDup|].
    rewrite links_expected. apply list_elem_of_fmap_2.
    apply visits_listed. by exists p.
  - intros file Hin%elem_of_links. rewrite links_expected in Hin.
    apply list_elem_of_fmap in Hin as (q & -> & (p & Hp & ->)%visits_listed).
    by exists p.
  - exact Hw.
Qed.

(** C3: a directory key has at most one heading in a run; it has exactly
    one when a directory at or beneath it is processed, and that heading is
    added while the first such directory is processed, before its links;
    the file written is the title line, then the line of each step, a
    heading being a blank line and the line [## name] of its level, then
    the footer. *)
Theorem heading_once_per_key cwd root out t g :
  Path.isabs cwd = true → wf_tree t = true →
  IndexGenerator.__init__ true root out = inr g →
  let tr := trace (IndexGenerator.generated cwd t g) in
  (∀ key, (heading_count key tr ≤ 1)%nat)
  ∧ (∀ d key, Visit d ∈ tr → key ∈ dir_keys d → heading_count key tr = 1%nat)
  ∧ (∀ pre key lvl part post,
       tr = pre ++ Heading key lvl part :: post →
       ∃ pre' d hs,
         pre = pre' ++ Visit d :: hs
         ∧ key ∈ dir_keys d
         ∧ Forall is_heading hs
         ∧ ∀ d', Visit d' ∈ pre' → key ∉ dir_keys d')
  ∧ IndexGenerator.generate cwd t g
    = (out, contents g +:+ index_text tr +:+ footer).
Proof.
  intros Hcwd Hwf Hg tr.
  pose proof (written_index cwd root out t g Hcwd Hwf Hg) as Hw.
  destruct (generated_spec cwd root out t g Hcwd Hwf Hg) as (Ht & _ & _).
  subst tr. rewrite Ht in *.
  pose proof (visits_wf t [] Hwf (Forall_nil_2 _)) as Hvs.
  assert (NoDup (heading_keys (expected [] (visits [] t)))) as Hnd
    by by apply heading_keys_NoDup.
  assert (∀ v, v ∈ visits [] t →
            dir_keys (rel_of (fst v)) = Str.join "/" <$> prefixes (fst v)) as Hkeys.
  { intros v Hv. apply dir_keys_rel_of. rewrite Forall_forall in Hvs.
    by destruct (Hvs v Hv). }
  assert (∀ v p, v ∈ visits [] t → p ∈ prefixes (fst v) → Forall wf_name p) as Hpw.
  { intros v p Hv Hp. rewrite Forall_forall in Hvs. destruct (Hvs v Hv) as [Hs _].
    pose proof (prefixes_wf _ Hs) as Hall. rewrite Forall_forall in Hall.
    by apply Hall. }
  split_and!.
  - intros key. by apply count_NoDup_le.
  - intros d key (v & Hv & [[= ->]|[(? & _ & _ & ?)|(? & _ & ?)]])%elem_of_expected Hk;
      [|done..].
    rewrite (Hkeys v Hv) in Hk. apply list_elem_of_fmap in Hk as (p & -> & Hp).
    apply count_NoDup_elem; [done|].
    destruct (heading_keys_cover (visits [] t) [] v p Hv Hp) as [?%elem_of_nil|Hin];
      [done|].
    apply elem_of_heading_keys. unfold heading_of in Hin. eauto.
  - intros pre key lvl part post E.
    destruct (heading_at_first_visit _ _ _ _ _ E I)
      as (pre' & v & hs & p & -> & Hv & Hp & _ & [= -> _ _] & Hhs & Hfirst).
    exists pre', (rel_of (fst v)), hs. split_and!; [done| |done|].
    + rewrite (Hkeys v Hv). by apply list_elem_of_fmap_2.
    + intros d' (v' & Hv' & -> & Hnp)%Hfirst. rewrite (Hkeys v' Hv').
      intros (q & Hq & Hin)%list_elem_of_fmap.
      assert (p = q) as <-; [|done].
      apply join_key_inj; [exact (Hpw _ _ Hv Hp)|exact (Hpw _ _ Hv' Hin)|done].
  - exact Hw.
Qed.

(** C4: the title of the root is a heading of level 1, and the heading of
    the directory at depth [d] (the length of its path from the root) is of
    level [d + 1], with the last name of the path as its text. *)
Theorem heading_level_is_depth_plus_one cwd root out t g :
  Path.isabs cwd = true → wf_tree t = true →
  IndexGenerator.__init__ true root out = inr g →
  let tr := trace (IndexGenerator.generated cwd t g) in
  contents g
  = Str.repeat "#" 1 +:+ " " +:+ Path.basename (Path.normpath root)
    +:+ String "010" ""
  ∧ contents (IndexGenerator.generated cwd t g) = contents g +:+ render tr
  ∧ ∀ segs lvl part,
      Forall wf_name segs →
      Heading (Str.join "/" segs) lvl part ∈ tr →
      lvl = (length segs + 1)%nat
      ∧ part = List.last segs ""
      ∧ render_event (Heading (Str.join "/" segs) lvl part)
        = String "010" "" +:+ Str.repeat "#" (length segs + 1) +:+ " "
          +:+ List.last segs "" +:+ String "010" "".
Proof.
  intros Hcwd Hwf Hg tr.
  destruct (generated_spec cwd root out t g Hcwd Hwf Hg) as (Ht & Hc & _).
  subst tr. rewrite Ht. split_and!; [by apply init_exists in Hg as ->|done|].
  intros segs lvl part Hsegs (v & Hv & [?|[(p & Hp & _ & E)|(? & _ & ?)]])%elem_of_expected;
    [done| |done].
  injection E as Hk -> ->.
  pose proof (visits_wf t [] Hwf (Forall_nil_2 _)) as Hvs.
  rewrite Forall_forall in Hvs. destruct (Hvs v Hv) as [Hs _].
  pose proof (prefixes_wf _ Hs) as Hall. rewrite Forall_forall in Hall.
  assert (segs = p) as ->; [|done].
  apply join_key_inj; [done|by apply Hall|done].
Qed.

(** C5: the heading of a directory comes before every link and every
    heading beneath that directory, and the links of the files of the root
    come first, right after the title and before every heading. *)
Theorem headings_precede_their_contents cwd root out t g :
  Path.isabs cwd = true → wf_tree t = true →
  IndexGenerator.__init__ true root out = inr g →
  let tr := trace (IndexGenerator.generated cwd t g) in
  let names :=
    IndexGenerator.sorted
      (filter (λ file, Str.endswith file ".md" = true ∧ file ≠ "README.md")
              (files t)) in
  (∀ q rest pre e post,
     q ≠ [] → rest ≠ [] → Forall wf_name (q ++ rest) →
     tr = pre ++ e :: post →
     (e = Link (Str.join "/" (q ++ rest))
      ∨ ∃ lvl part, e = Heading (Str.join "/" (q ++ rest)) lvl part) →
     heading_of q ∈ pre)
  ∧ ∃ rest,
      tr = (if bool_decide (names ≠ []) then [Visit "."] else [])
           ++ (Link <$> names) ++ rest
      ∧ Forall (λ file, has_char "/" file = false) names
      ∧ (∀ file, Link file ∈ rest → has_char "/" file = true)
      ∧ contents (IndexGenerator.generated cwd t g)
        = contents g +:+ render (Link <$> names) +:+ render rest.
Proof.
  intros Hcwd Hwf Hg tr names.
  destruct (generated_spec cwd root out t g Hcwd Hwf Hg) as (Ht & Hc & _).
  subst tr. rewrite Ht, Hc.
  pose proof (visits_wf t [] Hwf (Forall_nil_2 _)) as Hvs.
  split.
  - intros q rest pre e post Hq Hr Hqr E He.
    destruct (parent_heading_first _ _ _ _ _ _ _ Hvs E Hq Hr Hqr He)
      as [?%elem_of_nil|?]; done.
  - destruct t as [dirs nondirs]. cbn [files] in names.
    set (fs := filter (λ file, Str.endswith file ".md" = true ∧ file ≠ "README.md")
                 nondirs) in *.
    set (flat := flat_map
                   (λ entry, if bool_decide (fst entry ∉ [".git"; ".github"])
                             then visits ([] ++ [fst entry]) (snd entry) else [])
                   dirs).
    assert (∀ seen file, Link file ∈ expected seen flat → has_char "/" file = true)
      as Hdeep.
    { intros seen file (v & Hv & [?|[(? & _ & _ & ?)|(f & _ & [= ->])]])%elem_of_expected;
        [done..|].
      apply has_char_join_deep.
      apply elem_of_flat_map in Hv as (e & _ & Hv).
      case_bool_decide; [|by apply elem_of_nil in Hv].
      apply visits_prefix in Hv as [k Hk]. rewrite Hk. done. }
    assert (Forall (λ file, has_char "/" file = false) names) as Hnames.
    { apply wf_tree_node in Hwf as (_ & Hn & _). apply Forall_app in Hn as [_ Hn].
      unfold names. rewrite sorted_perm. apply Forall_filter_keep.
      eapply Forall_impl; [exact Hn|]. by intros ? (_ & _ & _ & ?). }
    assert (render (link_of [] <$> names) = render (Link <$> names)
            ∧ link_of [] <$> names = Link <$> names) as [Hr1 Hr2].
    { assert (link_of [] <$> names = Link <$> names) as ->; [|done].
      apply list_fmap_ext. intros _ f _. done. }
    cbn [visits]. fold fs flat.
    destruct (decide (fs = [])) as [Hfs|Hfs].
    + exists (expected [] flat).
      assert (names = []) as Hn by (unfold names; by rewrite Hfs).
      rewrite Hn, bool_decide_eq_false_2, (bool_decide_eq_false_2 ([] ≠ []))
        by (by intros ?).
      split_and!; [done|constructor|apply Hdeep|done].
    + exists (expected (prefixes [] ++ []) flat).
      assert (names ≠ []) as Hn.
      { unfold names. intros E. apply Hfs.
        apply Permutation_nil_r. by rewrite <-sorted_perm, E. }
      rewrite !bool_decide_eq_true_2 by done.
      cbn [app expected]. unfold block. cbn [rel_of prefixes prefixes_from filter].
      fold names. rewrite filter_nil, fmap_nil, app_nil_l, Hr2.
      split_and!; [done|done|apply Hdeep|].
      change (Visit "." :: ?l) with ([Visit "."] ++ l).
      by rewrite !render_app, !str_app_assoc.
Qed.

(** C6: the steps of a run fall into one group for each processed
    directory, and the links of a group are those of its kept files, sorted
    by file name in ascending lexicographic order; the file written is the
    title line, then the lines of the groups one after the other, then the
    footer. *)
Theorem links_sorted_within_directory cwd root out t g :
  Path.isabs cwd = true → wf_tree t = true →
  IndexGenerator.__init__ true root out = inr g →
  ∃ groups,
    trace (IndexGenerator.generated cwd t g) = concat (group_events <$> groups)
    ∧ Forall (λ grp, Forall is_heading (group_headings grp)
                     ∧ StronglySorted String.le (group_names grp)) groups
    ∧ Forall2 (λ grp v, group_dir grp = fst v ∧ group_names grp ≡ₚ snd v)
              groups (visits [] t)
    ∧ IndexGenerator.generate cwd t g
      = (out, contents g +:+ index_text (concat (group_events <$> groups))
              +:+ footer).
Proof.
  intros Hcwd Hwf Hg.
  pose proof (written_index cwd root out t g Hcwd Hwf Hg) as Hw.
  destruct (generated_spec cwd root out t g Hcwd Hwf Hg) as (Ht & _ & _).
  rewrite Ht in *.
  destruct (expected_groups (visits [] t) []) as (groups & E & Hgr).
  exists groups. split_and!; [done|..|by rewrite <-E].
  - clear E Hw Ht. induction Hgr as [|grp v groups vs (_ & ? & En) _ IH]; constructor; [|done].
    split; [done|]. rewrite En. apply sorted_sorted.
  - clear E Hw Ht. induction Hgr as [|grp v groups vs (? & _ & En) _ IH]; constructor; [|done].
    split; [done|]. rewrite En. apply sorted_perm.
Qed.

Lemma listed_linked t seen p :
  listed t p → Link (Str.join "/" p) ∈ expected seen (visits [] t).
Proof.
  intros Hp. apply elem_of_links. rewrite links_expected.
  apply list_elem_of_fmap_2, visits_listed. by exists p.
Qed.

(** C7: the link of a kept file is the line [- [text](target)] of the file
    written: the text is the name of the file without the extension
    [os.path.splitext] finds, the target the path of the file from the
    root, joined by slashes.  On every platform, whatever its separator,
    the target [_generateLink] makes of a path joined by that separator is
    the path joined by slashes. *)
Theorem link_line_format cwd root out t g segs name :
  Path.isabs cwd = true → wf_tree t = true →
  IndexGenerator.__init__ true root out = inr g →
  listed t (segs ++ [name]) →
  let file := Str.join "/" (segs ++ [name]) in
  let text := fst (Path.splitext name) in
  let extension := snd (Path.splitext name) in
  let tr := trace (IndexGenerator.generated cwd t g) in
  Link file ∈ tr
  ∧ IndexGenerator.generate cwd t g
    = (out, contents g +:+ index_text tr +:+ footer)
  ∧ index_line (Link file)
    = "- [" +:+ text +:+ "](" +:+ file +:+ ")" +:+ String "010" ""
  ∧ IndexGenerator._generateLink file
    = "- [" +:+ text +:+ "](" +:+ file +:+ ")"
  ∧ text +:+ extension = name
  ∧ extension = (if all_dots (strip_md name) then "" else ".md")
  ∧ ∀ (os : Os) (names : list string),
      Forall (λ n, has_char (@os_sep os) n = false) names →
      @IndexGenerator._generateLink os (Str.join (String (@os_sep os) "") names)
      = "- ["
        +:+ fst (@os_path_splitext os
                   (@os_path_basename os
                      (Str.join (String (@os_sep os) "") names)))
        +:+ "](" +:+ Str.join "/" names +:+ ")".
Proof.
  intros Hcwd Hwf Hg Hl file text extension tr.
  pose proof (written_index cwd root out t g Hcwd Hwf Hg) as Hw.
  destruct (generated_spec cwd root out t g Hcwd Hwf Hg) as (Ht & _ & _).
  subst tr. rewrite Ht in *.
  pose proof (listed_wf _ _ Hwf Hl) as [Hs Hn]%Forall_app.
  inversion_clear Hn as [|?? Hn' _].
  destruct (listed_last _ _ Hl) as (segs' & name' & E & Hmd & _).
  apply app_inj_2 in E as [_ [= <-]]; [|done].
  destruct (generateLink_path segs name Hs Hn' Hmd) as (Hgl & Hsplit & Hext).
  split_and!; [by apply listed_linked|done| |done|done|done|].
  - cbn [index_line]. unfold file. by rewrite link_text_path.
  - intros os names Hnames. unfold IndexGenerator._generateLink.
    by rewrite replace_join.
Qed.

Lemma filter_insert {A} (P : A → Prop) `{!∀ x, Decision (P x)} i x (l : list A) :
  ¬ P x → filter P (take i l ++ x :: drop i l) = filter P l.
Proof.
  intros Hx. rewrite filter_app, filter_cons_False, <-filter_app by done.
  by rewrite take_drop.
Qed.

(** C8: a second run on the tree the first run leaves behind ends as the
    first does: the file the first run wrote is not kept by the filter.  A
    run that can open the [README.md] of the root writes to this file and to
    no other, and the second run writes the same bytes to it. *)
Theorem rerun_writes_the_same cwd t directory i :
  main cwd (Some (with_readme i t)) directory = main cwd (Some t) directory
  ∧ ("README.md" ∉ map fst (subdirs t) →
     ∃ data,
       written (main cwd (Some t) directory)
       = [(Path.join (Path.abspath cwd (default "." directory)) ["README.md"],
           data)]
       ∧ written (main cwd (Some (with_readme i t)) directory)
         = [(Path.join (Path.abspath cwd (default "." directory)) ["README.md"],
             data)]).
Proof.
  assert (main cwd (Some (with_readme i t)) directory = main cwd (Some t) directory)
    as E.
  { destruct t as [dirs nondirs]. unfold with_readme.
    case_bool_decide; [done|].
    unfold main. cbn [IndexGenerator.__init__ negb subdirs].
    unfold IndexGenerator.generate, IndexGenerator.generated.
    cbn [IndexGenerator.walk IndexGenerator._filterDirectory].
    by rewrite filter_insert by (by intros [_ ?]). }
  split; [done|]. intros Hdir. rewrite E. unfold main.
  cbn [IndexGenerator.__init__ negb].
  unfold IndexGenerator.generate, IndexGenerator._writeToFile.
  rewrite generated_outputFile. cbn [outputFile].
  rewrite bool_decide_eq_false_2 by done.
  match goal with |- context [negb ?b] => destruct b end; by eexists.
Qed.

(** C2, as the code has it: when the root does not exist, the message goes
    to the standard output, nothing goes to the standard error, the exit
    status is 1 and no file is written. *)
Theorem missing_root_exits_with_message cwd directory :
  main cwd None directory
  = {| stdout := "Error: The specified directory '"
                 +:+ Path.abspath cwd (default "." directory)
                 +:+ "' does not exist." +:+ String "010" "";
       stderr := "";
       exit_status := 1;
       written := [];
       uncaught := None |}.
Proof. reflexivity. Qed.

(** C2 as stated fails: nothing is written to the standard error. *)
Lemma missing_root_stderr_empty :
  ¬ (stderr (main "/w" None (Some "/r/missing")) ≠ ""
     ∧ exit_status (main "/w" None (Some "/r/missing")) = 1
     ∧ written (main "/w" None (Some "/r/missing")) = []).
Proof. intros [H _]. by apply H. Qed.

(** C9, as the code has it: a file named [.md] is kept by the filter, and
    its link text is the whole name, for [os.path.splitext] finds no
    extension in a name of leading dots. *)
Theorem dot_md_link :
  IndexGenerator._filterDirectory [] [".md"] = ([], [".md"], true)
  ∧ Path.splitext ".md" = (".md", "")
  ∧ IndexGenerator._generateLink ".md" = "- [.md](.md)"
  ∧ written (main "/w" (Some (Node [] [".md"])) (Some "/r/proj"))
    = [("/r/proj/README.md",
        "# proj" +:+ String "010" "" +:+ "- [.md](.md)" +:+ String "010" ""
        +:+ footer)].
Proof. split_and!; by vm_compute. Qed.

(** C9 as stated fails: the link text of [.md] is not empty. *)
Lemma dot_md_link_text_not_empty :
  ¬ (IndexGenerator._filterDirectory [] [".md"] = ([], [".md"], true)
     ∧ IndexGenerator._generateLink ".md" = "- [](.md)").
Proof. intros [_ H]. by vm_compute in H. Qed.

(** C10: of a name with several dots only the part from the last dot on is
    taken off to make the link text. *)
Theorem last_extension_stripped stem ext :
  has_char "/" (stem +:+ "." +:+ ext) = false →
  has_char "." ext = false →
  all_dots stem = false →
  Path.splitext (stem +:+ "." +:+ ext) = (stem, "." +:+ ext)
  ∧ IndexGenerator._generateLink (stem +:+ "." +:+ ext)
    = "- [" +:+ stem +:+ "](" +:+ (stem +:+ "." +:+ ext) +:+ ")".
Proof.
  intros Hs He Hd.
  pose proof (splitext_name stem ext Hs He) as E. rewrite Hd in E.
  split; [done|].
  rewrite generateLink_posix.
  rewrite replace_same, basename_name by done. by rewrite E.
Qed.

(** ** The sample tree *)

Example sample_init :
  IndexGenerator.__init__ true "/r/proj" "/r/proj/README.md" = inr sample_generator.
Proof. reflexivity. Qed.

Example sample_run :
  trace (IndexGenerator.generated "/w" sample_tree sample_generator) = sample_trace.
Proof. by vm_compute. Qed.

Lemma listed_files_linked_once_witness :
  Path.isabs "/w" = true ∧ wf_tree sample_tree = true
  ∧ IndexGenerator.generate "/w" sample_tree sample_generator
    = ("/r/proj/README.md", sample_text)
  ∧ link_count "docs/api/a.md"
      (trace (IndexGenerator.generated "/w" sample_tree sample_generator)) = 1%nat.
Proof.
  split; [reflexivity|]. split; [by vm_compute|].
  pose proof (listed_files_linked_once "/w" "/r/proj" "/r/proj/README.md"
                sample_tree sample_generator) as H.
  destruct H as (H & _ & Hw); [reflexivity|by vm_compute|reflexivity|].
  split; [rewrite Hw; by vm_compute|].
  apply (H ["docs"; "api"; "a.md"]).
  eapply listed_sub; [by left|compute_done|].
  eapply listed_sub; [by left|compute_done|].
  apply listed_file; [compute_done|reflexivity|done].
Defined.

Lemma heading_once_per_key_witness :
  Path.isabs "/w" = true ∧ wf_tree sample_tree = true
  ∧ Visit "docs/api"
      ∈ trace (IndexGenerator.generated "/w" sample_tree sample_generator)
  ∧ "docs" ∈ dir_keys "docs/api"
  ∧ IndexGenerator.generate "/w" sample_tree sample_generator
    = ("/r/proj/README.md", sample_text)
  ∧ heading_count "docs"
      (trace (IndexGenerator.generated "/w" sample_tree sample_generator)) = 1%nat.
Proof.
  split; [reflexivity|]. split; [by vm_compute|].
  split; [compute_done|]. split; [compute_done|].
  pose proof (heading_once_per_key "/w" "/r/proj" "/r/proj/README.md"
                sample_tree sample_generator) as H.
  destruct H as (_ & H & _ & Hw); [reflexivity|by vm_compute|reflexivity|].
  split; [rewrite Hw; by vm_compute|].
  apply (H "docs/api" "docs"); compute_done.
Defined.

Lemma heading_level_is_depth_plus_one_witness :
  Path.isabs "/w" = true ∧ wf_tree sample_tree = true
  ∧ Forall wf_name ["docs"; "api"]
  ∧ Heading "docs/api" 3 "api"
      ∈ trace (IndexGenerator.generated "/w" sample_tree sample_generator)
  ∧ 3%nat = (length ["docs"; "api"] + 1)%nat
  ∧ "api" = List.last ["docs"; "api"] "".
Proof.
  split; [reflexivity|]. split; [by vm_compute|].
  split; [compute_done|]. split; [compute_done|].
  pose proof (heading_level_is_depth_plus_one "/w" "/r/proj" "/r/proj/README.md"
                sample_tree sample_generator) as H.
  destruct H as (_ & _ & H); [reflexivity|by vm_compute|reflexivity|].
  destruct (H ["docs"; "api"] 3%nat "api") as (H1 & H2 & _); [compute_done..|].
  by split.
Defined.

Lemma headings_precede_their_contents_witness :
  Path.isabs "/w" = true ∧ wf_tree sample_tree = true
  ∧ trace (IndexGenerator.generated "/w" sample_tree sample_generator)
    = [Visit "."; Link "a.b.md"; Link "b.md";
       Visit "docs"; Heading "docs" 2 "docs"; Link "docs/x.md";
       Visit "docs/api"; Heading "docs/api" 3 "api"]
      ++ Link "docs/api/a.md"
      :: [Link "docs/api/z.md";
          Visit "empty/deep"; Heading "empty" 2 "empty";
          Heading "empty/deep" 3 "deep"; Link "empty/deep/.md"]
  ∧ heading_of ["docs"]
    ∈ [Visit "."; Link "a.b.md"; Link "b.md";
       Visit "docs"; Heading "docs" 2 "docs"; Link "docs/x.md";
       Visit "docs/api"; Heading "docs/api" 3 "api"].
Proof.
  split; [reflexivity|]. split; [by vm_compute|]. split; [by vm_compute|].
  pose proof (headings_precede_their_contents "/w" "/r/proj" "/r/proj/README.md"
                sample_tree sample_generator) as H.
  destruct H as (H & _); [reflexivity|by vm_compute|reflexivity|].
  eapply (H ["docs"] ["api"; "a.md"] _ (Link "docs/api/a.md"));
    [done|done|compute_done|by vm_compute|by left].
Defined.

Lemma links_sorted_within_directory_witness :
  Path.isabs "/w" = true ∧ wf_tree sample_tree = true
  ∧ ∃ groups,
      trace (IndexGenerator.generated "/w" sample_tree sample_generator)
      = concat (group_events <$> groups)
      ∧ Forall (λ grp, Forall is_heading (group_headings grp)
                       ∧ StronglySorted String.le (group_names grp)) groups
      ∧ Forall2 (λ grp v, group_dir grp = fst v ∧ group_names grp ≡ₚ snd v)
                groups (visits [] sample_tree)
      ∧ IndexGenerator.generate "/w" sample_tree sample_generator
        = ("/r/proj/README.md",
           contents sample_generator
           +:+ index_text (concat (group_events <$> groups)) +:+ footer).
Proof.
  split; [reflexivity|]. split; [by vm_compute|].
  apply (links_sorted_within_directory "/w" "/r/proj" "/r/proj/README.md"
           sample_tree sample_generator); [reflexivity|by vm_compute|reflexivity].
Defined.

Lemma link_line_format_witness :
  Path.isabs "/w" = true ∧ wf_tree sample_tree = true
  ∧ listed sample_tree (["docs"; "api"] ++ ["a.md"])
  ∧ Link "docs/api/a.md"
      ∈ trace (IndexGenerator.generated "/w" sample_tree sample_generator)
  ∧ IndexGenerator.generate "/w" sample_tree sample_generator
    = ("/r/proj/README.md", sample_text)
  ∧ index_line (Link "docs/api/a.md")
    = "- [a](docs/api/a.md)" +:+ String "010" ""
  ∧ ∀ os : Os,
      @os_sep os = "\"%char →
      ∃ text,
        @IndexGenerator._generateLink os "docs\api\a.md"
        = "- [" +:+ text +:+ "](docs/api/a.md)".
Proof.
  split; [reflexivity|]. split; [by vm_compute|].
  assert (listed sample_tree (["docs"; "api"] ++ ["a.md"])) as Hl.
  { eapply listed_sub; [by left|compute_done|].
    eapply listed_sub; [by left|compute_done|].
    apply listed_file; [compute_done|reflexivity|done]. }
  split; [exact Hl|].
  pose proof (link_line_format "/w" "/r/proj" "/r/proj/README.md"
                sample_tree sample_generator ["docs"; "api"] "a.md") as H.
  destruct H as (H1 & Hw & H2 & _ & _ & _ & Hos);
    [reflexivity|by vm_compute|reflexivity|exact Hl|].
  split; [exact H1|]. split; [rewrite Hw; by vm_compute|]. split; [exact H2|].
  intros os Hsep. specialize (Hos os ["docs"; "api"; "a.md"]).
  rewrite Hsep in Hos. eexists. apply Hos. by repeat constructor.
Defined.

Lemma rerun_writes_the_same_witness :
  ("README.md" ∉ map fst (subdirs (Node [] ["b.md"; "a.md"])))
  ∧ with_readme 1 (Node [] ["b.md"; "a.md"]) = Node [] ["b.md"; "README.md"; "a.md"]
  ∧ main "/w" (Some (Node [] ["b.md"; "README.md"; "a.md"])) (Some "/r/proj")
    = main "/w" (Some (Node [] ["b.md"; "a.md"])) (Some "/r/proj")
  ∧ ∃ data,
      written (main "/w" (Some (Node [] ["b.md"; "a.md"])) (Some "/r/proj"))
      = [("/r/proj/README.md", data)]
      ∧ written (main "/w" (Some (Node [] ["b.md"; "README.md"; "a.md"]))
                   (Some "/r/proj"))
        = [("/r/proj/README.md", data)].
Proof.
  split; [compute_done|]. split; [reflexivity|].
  destruct (rerun_writes_the_same "/w" (Node [] ["b.md"; "a.md"]) (Some "/r/proj") 1)
    as [E H].
  split; [exact E|]. destruct H as (data & H1 & H2); [compute_done|].
  exists data. split; [exact H1|exact H2].
Defined.

Lemma last_extension_stripped_witness :
  has_char "/" ("a.b" +:+ "." +:+ "md") = false
  ∧ has_char "." "md" = false
  ∧ all_dots "a.b" = false
  ∧ Path.splitext "a.b.md" = ("a.b", ".md")
  ∧ IndexGenerator._generateLink "a.b.md" = "- [a.b](a.b.md)".
Proof.
  split; [reflexivity|]. split; [reflexivity|]. split; [reflexivity|].
  apply (last_extension_stripped "a.b" "md"); reflexivity.
Defined.

(** The scenarios of the specification. *)

Example scenario_root_files :
  written (main "/w" (Some (Node [] ["b.md"; "README.md"; "a.md"])) (Some "/r/proj"))
  = [("/r/proj/README.md",
      "# proj" +:+ String "010" ""
      +:+ "- [a](a.md)" +:+ String "010" ""
      +:+ "- [b](b.md)" +:+ String "010" "" +:+ footer)].
Proof. by vm_compute. Qed.

Example scenario_subdirectory :
  written (main "/w" (Some (Node [("docs", Node [] ["x.md"])] [])) (Some "/r/proj"))
  = [("/r/proj/README.md",
      "# proj" +:+ String "010" ""
      +:+ String "010" "" +:+ "## docs" +:+ String "010" ""
      +:+ "- [x](docs/x.md)" +:+ String "010" "" +:+ footer)].
Proof. by vm_compute. Qed.

Example scenario_excluded_directory :
  written (main "/w" (Some (Node [(".github", Node [] ["notes.md"])] [])) (Some "/r/proj"))
  = [("/r/proj/README.md", "# proj" +:+ String "010" "" +:+ footer)].
Proof. by vm_compute. Qed.

Example scenario_relative_root :
  written (main "/r" (Some (Node [("docs", Node [] ["x.md"])] [])) (Some "proj/"))
  = [("/r/proj/README.md",
      "# proj" +:+ String "010" ""
      +:+ String "010" "" +:+ "## docs" +:+ String "010" ""
      +:+ "- [x](docs/x.md)" +:+ String "010" "" +:+ footer)].
Proof. by vm_compute. Qed.

Example scenario_default_directory :
  written (main "/r/proj" (Some (Node [] ["a.md"])) None)
  = [("/r/proj/README.md",
      "# proj" +:+ String "010" ""
      +:+ "- [a](a.md)" +:+ String "010" "" +:+ footer)].
Proof. by vm_compute. Qed.

Example scenario_missing_root :
  main "/w" None (Some "nowhere")
  = {| stdout := "Error: The specified directory '/w/nowhere' does not exist."
                 +:+ String "010" "";
       stderr := ""; exit_status := 1; written := []; uncaught := None |}.
Proof. by vm_compute. Qed.

Example scenario_readme_is_a_directory :
  main "/w" (Some (Node [("README.md", Node [] [])] ["a.md"])) (Some "/r/proj")
  = {| stdout := ""; stderr := ""; exit_status := 1; written := [];
       uncaught := Some (IsADirectoryError "/r/proj/README.md") |}.
Proof. by vm_compute. Qed.

Example scenario_undecodable_name :
  main "/w" (Some (Node [] [String "255" ".md"])) (Some "/r/proj")
  = {| stdout := ""; stderr := ""; exit_status := 1;
       written := [("/r/proj/README.md", "")];
       uncaught := Some UnicodeEncodeError |}.
Proof. by vm_compute. Qed.

(** ** What a run keeps, on any tree *)

Section StepFacts.

Variable P : IndexGenerator → Prop.
Hypothesis P_enter : ∀ self d, P self → P (enter d self).
Hypothesis P_heading : ∀ self key i part,
  P self → key ∉ printed self → P (add_heading key i part self).
Hypothesis P_link : ∀ self file, P self → P (add_link file self).

Lemma headings_loop_steps parts : ∀ i acc self,
  P self → P (IndexGenerator._addDirectoryHeadings_loop i acc parts self).
Proof.
  induction parts as [|part parts IH]; intros i acc self Hself; [done|].
  cbn [IndexGenerator._addDirectoryHeadings_loop]. apply IH.
  case_bool_decide; [|done]. by apply (P_heading self _ i part).
Qed.

Lemma process_steps cwd directory files self :
  P self → P (IndexGenerator._processDirectory cwd directory files self).
Proof.
  intros Hself. unfold IndexGenerator._processDirectory.
  set (rel := Path.relpath cwd directory (rootDirectory self)).
  change {| rootDirectory := rootDirectory self; outputFile := outputFile self;
            contents := contents self; printed := printed self;
            trace := trace self ++ [Visit rel] |} with (enter rel self).
  set (self2 := if bool_decide (rel ≠ ".") then _ else enter rel self).
  assert (P self2) as Hself2.
  { unfold self2. case_bool_decide; [|by apply P_enter].
    by apply headings_loop_steps, P_enter. }
  clearbody self2. revert self2 Hself2.
  induction (IndexGenerator.sorted files) as [|file l IH]; intros s Hs; [done|].
  cbn [fold_left]. apply IH. by apply P_link.
Qed.

Lemma generated_steps cwd t self :
  P self → P (IndexGenerator.generated cwd t self).
Proof.
  intros Hself. unfold IndexGenerator.generated.
  apply walk_invariant; [|done]. intros. by apply process_steps.
Qed.

End StepFacts.

Section AnyTree.

Lemma render_snoc tr e : render (tr ++ [e]) = render tr +:+ render_event e.
Proof. by rewrite render_app, render_singleton. Qed.

Lemma heading_keys_snoc tr e :
  heading_keys (tr ++ [e])
  = heading_keys tr ++ match e with Heading key _ _ => [key] | _ => [] end.
Proof. rewrite heading_keys_app. by destruct e. Qed.

(** The buffer is the title followed by the text of the steps. *)
Lemma generated_contents cwd t self :
  trace self = [] →
  contents (IndexGenerator.generated cwd t self)
  = contents self +:+ render (trace (IndexGenerator.generated cwd t self)).
Proof.
  intros Htr.
  apply (generated_steps (λ s, contents s = contents self +:+ render (trace s))).
  - intros s d Hs. cbn [enter trace contents].
    rewrite render_snoc, Hs. cbn [render_event]. by rewrite str_app_nil_r.
  - intros s key i part Hs _.
    cbn [add_heading IndexGenerator.mark IndexGenerator.emit trace contents].
    rewrite render_snoc, Hs. cbn [render_event]. by rewrite !str_app_assoc.
  - intros s file Hs. cbn [add_link IndexGenerator.emit trace contents].
    rewrite render_snoc, Hs. cbn [render_event]. by rewrite !str_app_assoc.
  - by rewrite Htr, str_app_nil_r.
Qed.

(** What [generate] hands to [open] and [f.write], on any tree. *)
Lemma generate_any cwd t root out g :
  IndexGenerator.__init__ true root out = inr g →
  IndexGenerator.generate cwd t g
  = (out, contents g +:+ render (trace (IndexGenerator.generated cwd t g))
          +:+ footer).
Proof.
  intros ->%init_exists.
  unfold IndexGenerator.generate, IndexGenerator._writeToFile.
  rewrite generated_outputFile, generated_contents by done.
  cbn [outputFile contents]. by rewrite !str_app_assoc.
Qed.

(** X1: whatever the tree, a run on an existing root that can open the
    [README.md] of the root, which is the case when it is not a directory,
    and encode its text prints nothing, exits with status 0 and writes
    this one file: the title line, then the text of the steps of the run,
    then the footer. *)
Theorem run_writes_one_readme cwd t directory g :
  let root := Path.abspath cwd (default "." directory) in
  IndexGenerator.__init__ true root (Path.join root ["README.md"]) = inr g →
  "README.md" ∉ map fst (subdirs t) →
  Str.encodable (snd (IndexGenerator.generate cwd t g)) = true →
  main cwd (Some t) directory
  = {| stdout := ""; stderr := ""; exit_status := 0;
       written :=
         [(Path.join root ["README.md"],
           "# " +:+ Path.basename (Path.normpath root) +:+ String "010" ""
           +:+ render (trace (IndexGenerator.generated cwd t g))
           +:+ footer)];
       uncaught := None |}.
Proof.
  intros root Hg Hdir Henc.
  rewrite (main_run cwd t directory g Hg Hdir Henc).
  rewrite (generate_any cwd t _ _ g Hg).
  apply init_exists in Hg as ->. cbn [contents].
  by rewrite !str_app_assoc.
Qed.

(** X2: whatever the tree, the keys in [printed] at the end of a run are
    those of the headings added, no key has two headings, and the text
    handed to the file is the title line, the text of the steps, each
    heading a blank line and the line of its level and name, and the
    footer. *)
Theorem printed_is_headings cwd t root out g :
  IndexGenerator.__init__ true root out = inr g →
  printed (IndexGenerator.generated cwd t g)
  = list_to_set (heading_keys (trace (IndexGenerator.generated cwd t g)))
  ∧ NoDup (heading_keys (trace (IndexGenerator.generated cwd t g)))
  ∧ (∀ key level part,
       render_event (Heading key level part)
       = String "010" "" +:+ Str.repeat "#" level +:+ " " +:+ part
         +:+ String "010" "")
  ∧ IndexGenerator.generate cwd t g
    = (out, contents g +:+ render (trace (IndexGenerator.generated cwd t g))
            +:+ footer).
Proof.
  intros Hg. pose proof (generate_any cwd t root out g Hg) as Hw.
  apply init_exists in Hg as ->.
  cut (printed (IndexGenerator.generated cwd t
                  {| rootDirectory := root; outputFile := out;
                     contents := "# " +:+ Path.basename (Path.normpath root)
                                 +:+ String "010" "";
                     printed := ∅; trace := [] |})
       = list_to_set
           (heading_keys
              (trace (IndexGenerator.generated cwd t
                        {| rootDirectory := root; outputFile := out;
                           contents := "# "
                                       +:+ Path.basename (Path.normpath root)
                                       +:+ String "010" "";
                           printed := ∅; trace := [] |})))
       ∧ NoDup
           (heading_keys
              (trace (IndexGenerator.generated cwd t
                        {| rootDirectory := root; outputFile := out;
                           contents := "# "
                                       +:+ Path.basename (Path.normpath root)
                                       +:+ String "010" "";
                           printed := ∅; trace := [] |})))).
  { intros [? ?]. by split_and!. }
  apply (generated_steps
           (λ s, printed s = list_to_set (heading_keys (trace s))
                 ∧ NoDup (heading_keys (trace s)))).
  - intros s d [Hp Hn]. simpl. by rewrite heading_keys_snoc, app_nil_r.
  - intros s key i part [Hp Hn] Hkey. simpl. rewrite heading_keys_snoc.
    split.
    + apply set_eq. intros k.
      rewrite elem_of_union, elem_of_singleton, Hp, !elem_of_list_to_set.
      rewrite elem_of_app, list_elem_of_singleton. tauto.
    + apply NoDup_app. split_and!; [done| |apply NoDup_singleton].
      intros k Hk ->%list_elem_of_singleton. apply Hkey.
      rewrite Hp. by apply elem_of_list_to_set.
  - intros s file [Hp Hn]. simpl. by rewrite heading_keys_snoc, app_nil_r.
  - split; [done|constructor].
Qed.

End AnyTree.

(** ** Adding the headings of a directory again *)

Section HeadingsAgain.

Lemma headings_loop_printed_mono parts : ∀ i acc self k,
  k ∈ printed self →
  k ∈ printed (IndexGenerator._addDirectoryHeadings_loop i acc parts self).
Proof.
  induction parts as [|part parts IH]; intros i acc self k Hk; [done|].
  cbn [IndexGenerator._addDirectoryHeadings_loop]. apply IH.
  case_bool_decide; [|done].
  cbn [IndexGenerator.mark printed]. apply elem_of_union. by right.
Qed.

Lemma headings_loop_marks parts : ∀ i acc self k,
  k ∈ Str.join "/" <$> prefixes_from acc parts →
  k ∈ printed (IndexGenerator._addDirectoryHeadings_loop i acc parts self).
Proof.
  induction parts as [|part parts IH]; intros i acc self k;
    [by intros ?%elem_of_nil|].
  cbn [IndexGenerator._addDirectoryHeadings_loop prefixes_from].
  rewrite fmap_cons. intros [->|Hk]%elem_of_cons; [|by apply IH].
  apply headings_loop_printed_mono.
  case_bool_decide as Hin; [|done].
  cbn [IndexGenerator.mark printed]. apply elem_of_union. left.
  by apply elem_of_singleton.
Qed.

Lemma headings_loop_noop parts : ∀ i acc self,
  (∀ k, k ∈ Str.join "/" <$> prefixes_from acc parts → k ∈ printed self) →
  IndexGenerator._addDirectoryHeadings_loop i acc parts self = self.
Proof.
  induction parts as [|part parts IH]; intros i acc self Hall; [done|].
  cbn [IndexGenerator._addDirectoryHeadings_loop prefixes_from] in *.
  rewrite bool_decide_eq_false_2.
  - apply IH. intros k Hk. apply Hall. rewrite fmap_cons. by right.
  - intros Hn. apply Hn, Hall. rewrite fmap_cons. by left.
Qed.

(** X3: adding the headings of a directory a second time changes nothing:
    every key of the directory is marked by the first call. *)
Theorem headings_added_once relativeDirectory self :
  IndexGenerator._addDirectoryHeadings relativeDirectory
    (IndexGenerator._addDirectoryHeadings relativeDirectory self)
  = IndexGenerator._addDirectoryHeadings relativeDirectory self
  ∧ ∀ key, key ∈ Str.join "/" <$> prefixes (Str.split "/" relativeDirectory) →
           key ∈ printed
                   (IndexGenerator._addDirectoryHeadings relativeDirectory self).
Proof.
  unfold IndexGenerator._addDirectoryHeadings, Path.sep. split.
  - apply headings_loop_noop. intros k Hk. by apply headings_loop_marks.
  - intros key Hk. by apply headings_loop_marks.
Qed.

End HeadingsAgain.

(** ** What the index depends on *)

Section SameIndex.

Lemma sorted_perm_eq l l' :
  l ≡ₚ l' → IndexGenerator.sorted l = IndexGenerator.sorted l'.
Proof.
  intros Hp. apply (Sorted_unique String.le).
  - apply Sorted_merge_sort; apply _.
  - apply Sorted_merge_sort; apply _.
  - by rewrite !sorted_perm.
Qed.

Lemma process_perm cwd directory fs fs' self :
  fs ≡ₚ fs' →
  IndexGenerator._processDirectory cwd directory fs self
  = IndexGenerator._processDirectory cwd directory fs' self.
Proof.
  intros Hp. unfold IndexGenerator._processDirectory.
  by rewrite (sorted_perm_eq _ _ Hp).
Qed.

Lemma fold_left_ext_elem {A B} (f g : A → B → A) l : ∀ a,
  (∀ x a, x ∈ l → f a x = g a x) → fold_left f l a = fold_left g l a.
Proof.
  induction l as [|x l IH]; intros a H; [done|].
  cbn [fold_left]. rewrite H by by left. apply IH.
  intros y b Hy. apply H. by right.
Qed.

Lemma walk_same_index cwd t : ∀ t' top self,
  same_index t t' →
  IndexGenerator.walk cwd top t self = IndexGenerator.walk cwd top t' self.
Proof.
  induction t as [dirs nondirs IH] using Tree_nested_ind.
  intros [dirs' nondirs'] top self [Hfs Hdirs].
  cbn [IndexGenerator.walk IndexGenerator._filterDirectory].
  set (fs := filter (λ file, Str.endswith file ".md" = true ∧ file ≠ "README.md")
               nondirs) in *.
  set (fs' := filter (λ file, Str.endswith file ".md" = true ∧ file ≠ "README.md")
                nondirs') in *.
  assert (map fst dirs = map fst dirs') as <-.
  { clear IH. revert dirs' Hdirs.
    induction dirs as [|[n s] dirs IHd]; intros [|[n' s'] dirs'] Hd; try done.
    destruct Hd as (-> & _ & Hd). simpl. f_equal. by apply IHd. }
  assert ((if bool_decide (fs' ≠ [])
           then IndexGenerator._processDirectory cwd top fs' self else self)
          = (if bool_decide (fs ≠ [])
             then IndexGenerator._processDirectory cwd top fs self else self))
    as ->.
  { rewrite (process_perm cwd top fs fs' self Hfs).
    destruct (decide (fs = [])) as [E|E].
    - assert (fs' = []) as E'.
      { symmetry. apply Permutation_nil_l. by rewrite <-E. }
      by rewrite E, E'.
    - assert (fs' ≠ []) as E'.
      { intros E'. apply E. apply Permutation_nil_r. by rewrite <-E'. }
      by rewrite !bool_decide_eq_true_2. }
  apply fold_left_ext_elem.
  intros dirname s [Hex _]%list_elem_of_filter.
  clear Hfs. revert dirs' Hdirs.
  induction IH as [|[n sub] dirs Hsub _ IHd]; intros [|[n' sub'] dirs'] Hd;
    try done.
  destruct Hd as (<- & Hs & Hd). simpl in Hsub.
  destruct (String.eqb_spec n dirname) as [->|_]; [|by apply IHd].
  destruct Hs as [?|Hs]; [done|]. by apply Hsub.
Qed.

(** X4: the index is the same for two trees that differ only in the order
    of the file listings, in the files that are not kept, and in what lies
    under the directories named [.git] or [.github]. *)
Theorem index_ignores_the_rest cwd t t' self :
  same_index t t' →
  IndexGenerator.generate cwd t self = IndexGenerator.generate cwd t' self.
Proof.
  intros H. unfold IndexGenerator.generate, IndexGenerator.generated.
  by rewrite (walk_same_index cwd t t' _ _ H).
Qed.

End SameIndex.

(** ** The root, and trees without Markdown *)

Section Relocation.

Lemma visits_files_nonempty t : ∀ segs v, v ∈ visits segs t → snd v ≠ [].
Proof.
  induction t as [dirs nondirs IH] using Tree_nested_ind.
  intros segs v. rewrite Forall_forall in IH. cbn [visits].
  intros [H|H]%elem_of_app.
  - case_bool_decide; [|by apply elem_of_nil in H].
    by apply list_elem_of_singleton in H as ->.
  - apply elem_of_flat_map in H as (e & He & H).
    case_bool_decide; [|by apply elem_of_nil in H].
    by apply (IH e He) in H.
Qed.

(** X5: the steps of a run, and so the index after its title line, do not
    depend on where the root lies nor on the working directory. *)
Theorem index_body_independent_of_root
    cwd1 cwd2 root1 root2 out1 out2 t g1 g2 :
  Path.isabs cwd1 = true → Path.isabs cwd2 = true → wf_tree t = true →
  IndexGenerator.__init__ true root1 out1 = inr g1 →
  IndexGenerator.__init__ true root2 out2 = inr g2 →
  trace (IndexGenerator.generated cwd1 t g1)
  = trace (IndexGenerator.generated cwd2 t g2)
  ∧ ∃ body,
      IndexGenerator.generate cwd1 t g1 = (out1, contents g1 +:+ body +:+ footer)
      ∧ IndexGenerator.generate cwd2 t g2
        = (out2, contents g2 +:+ body +:+ footer).
Proof.
  intros Hc1 Hc2 Hwf Hg1 Hg2.
  destruct (generated_spec cwd1 root1 out1 t g1 Hc1 Hwf Hg1) as (Ht1 & Hb1 & Ho1).
  destruct (generated_spec cwd2 root2 out2 t g2 Hc2 Hwf Hg2) as (Ht2 & Hb2 & Ho2).
  split; [by rewrite Ht1, Ht2|].
  exists (render (expected [] (visits [] t))).
  unfold IndexGenerator.generate, IndexGenerator._writeToFile.
  rewrite Ho1, Ho2, Hb1, Hb2. by rewrite !str_app_assoc.
Qed.

(** X6: a heading is only added for a directory with a kept file in it or
    beneath it. *)
Theorem heading_has_a_file_beneath cwd root out t g key lvl part :
  Path.isabs cwd = true → wf_tree t = true →
  IndexGenerator.__init__ true root out = inr g →
  Heading key lvl part ∈ trace (IndexGenerator.generated cwd t g) →
  ∃ q rest, q ≠ [] ∧ rest ≠ [] ∧ key = Str.join "/" q ∧ listed t (q ++ rest).
Proof.
  intros Hcwd Hwf Hg.
  destruct (generated_spec cwd root out t g Hcwd Hwf Hg) as (-> & _ & _).
  intros (v & Hv & [?|[(p & Hp & _ & [= -> _ _])|(? & _ & ?)]])%elem_of_expected;
    [done| |done].
  apply prefixes_spec in Hp as [Hne [k Hk]].
  pose proof (visits_files_nonempty _ _ _ Hv) as Hfs.
  destruct (snd v) as [|f fs] eqn:Efs; [done|].
  exists p, (k ++ [f]). split_and!; [done|by destruct k|done|].
  assert (fst v ++ [f] ∈ all_paths (visits [] t)) as Hin.
  { apply elem_of_all_paths. exists v, f. rewrite Efs. split_and!; [done|by left|done]. }
  apply visits_listed in Hin as (p' & Hp' & E). simpl in E.
  by rewrite app_assoc, <-Hk, E.
Qed.

(** X7: on a tree without a kept file the run takes no step, and the
    index is the title line and the footer. *)
Theorem no_markdown_no_steps cwd root out t g :
  Path.isabs cwd = true → wf_tree t = true →
  IndexGenerator.__init__ true root out = inr g →
  (∀ p, ¬ listed t p) →
  trace (IndexGenerator.generated cwd t g) = []
  ∧ IndexGenerator.generate cwd t g
    = (out, "# " +:+ Path.basename (Path.normpath root) +:+ String "010" ""
            +:+ footer).
Proof.
  intros Hcwd Hwf Hg Hnone.
  destruct (generated_spec cwd root out t g Hcwd Hwf Hg) as (Ht & Hc & Ho).
  assert (visits [] t = []) as E.
  { destruct (visits [] t) as [|v vs] eqn:E; [done|]. exfalso.
    assert (v ∈ visits [] t) as Hv by (rewrite E; left).
    pose proof (visits_files_nonempty _ _ _ Hv) as Hfs.
    destruct (snd v) as [|f fs] eqn:Efs; [done|].
    assert (fst v ++ [f] ∈ all_paths (visits [] t)) as Hin.
    { apply elem_of_all_paths. exists v, f. rewrite Efs.
      split_and!; [done|by left|done]. }
    apply visits_listed in Hin as (p & Hp & _). by apply (Hnone p). }
  rewrite E in Ht, Hc. split; [done|].
  unfold IndexGenerator.generate, IndexGenerator._writeToFile.
  rewrite Ho, Hc. apply init_exists in Hg as ->. simpl.
  by rewrite !str_app_assoc.
Qed.

End Relocation.

(** ** The filter *)

Section FilterFacts.

Lemma filter_filter_same {A} (P : A → Prop) `{!∀ x, Decision (P x)} (l : list A) :
  filter P (filter P l) = filter P l.
Proof.
  induction l as [|x l IH]; [done|].
  destruct (decide (P x)).
  - by rewrite !filter_cons_True, IH.
  - by rewrite !filter_cons_False.
Qed.

(** X8: the filter keeps the order of both lists, changes nothing when
    run on its own result, and answers true exactly when some file of the
    directory is named [*.md] and is not [README.md]. *)
Theorem filter_directory_stable subdirectories files :
  let kept := IndexGenerator._filterDirectory subdirectories files in
  IndexGenerator._filterDirectory (fst (fst kept)) (snd (fst kept)) = kept
  ∧ fst (fst kept) `sublist_of` subdirectories
  ∧ snd (fst kept) `sublist_of` files
  ∧ (snd kept = true
     ↔ ∃ file, file ∈ files ∧ Str.endswith file ".md" = true
               ∧ file ≠ "README.md").
Proof.
  unfold IndexGenerator._filterDirectory. cbn [fst snd].
  split_and!.
  - by rewrite !filter_filter_same.
  - apply sublist_filter.
  - apply sublist_filter.
  - rewrite bool_decide_eq_true. split.
    + intros Hne.
      destruct (filter _ files) as [|f fs] eqn:E; [done|].
      assert (f ∈ filter (λ file, Str.endswith file ".md" = true
                            ∧ file ≠ "README.md") files)
        as [[? ?] ?]%list_elem_of_filter by (rewrite E; left).
      by exists f.
    + intros (f & Hf & Hmd & Hne) E.
      assert (f ∈ filter (λ file, Str.endswith file ".md" = true
                            ∧ file ≠ "README.md") files) as Hin
        by by apply list_elem_of_filter.
      rewrite E in Hin. by apply elem_of_nil in Hin.
Qed.

Lemma str_app_inj_length p q a b :
  p +:+ a = q +:+ b → String.length a = String.length b → a = b.
Proof.
  revert q. induction p as [|x p IH]; intros [|y q] E Hlen.
  - done.
  - apply (f_equal String.length) in E.
    rewrite str_app_nil_l, str_app_cons in E. simpl in E.
    rewrite str_app_length in E. lia.
  - apply (f_equal String.length) in E.
    rewrite str_app_nil_l, str_app_cons in E. simpl in E.
    rewrite str_app_length in E. lia.
  - rewrite !str_app_cons in E. injection E as _ E. by apply (IH q).
Qed.

(** X9: the extension is matched as it is written: a file whose name ends
    in three other characters, such as [.MD], is never kept. *)
Theorem other_extension_dropped subdirectories files name ext :
  String.length ext = 3%nat → ext ≠ ".md" →
  Str.endswith name ext = true →
  name ∉ snd (fst (IndexGenerator._filterDirectory subdirectories files)).
Proof.
  intros Hlen Hne [p ->]%endswith_spec.
  unfold IndexGenerator._filterDirectory. cbn [fst snd].
  intros [[[q E]%endswith_spec _] _]%list_elem_of_filter.
  apply Hne. by apply (str_app_inj_length p q ext ".md").
Qed.

End FilterFacts.

(** ** The sample trees *)

Lemma run_writes_one_readme_witness :
  IndexGenerator.__init__ true (Path.abspath "/w" (default "." (Some "/r/proj")))
    (Path.join (Path.abspath "/w" (default "." (Some "/r/proj"))) ["README.md"])
  = inr sample_generator
  ∧ ("README.md" ∉ map fst (subdirs sample_tree))
  ∧ Str.encodable (snd (IndexGenerator.generate "/w" sample_tree sample_generator))
    = true
  ∧ main "/w" (Some sample_tree) (Some "/r/proj")
    = {| stdout := ""; stderr := ""; exit_status := 0;
         written := [("/r/proj/README.md", sample_text)];
         uncaught := None |}.
Proof.
  split; [reflexivity|]. split; [compute_done|]. split; [by vm_compute|].
  rewrite (run_writes_one_readme "/w" sample_tree (Some "/r/proj") sample_generator);
    [by vm_compute|reflexivity|compute_done|by vm_compute].
Defined.

Lemma printed_is_headings_witness :
  IndexGenerator.__init__ true "/r/proj" "/r/proj/README.md" = inr sample_generator
  ∧ printed (IndexGenerator.generated "/w" sample_tree sample_generator)
    = list_to_set
        (heading_keys
           (trace (IndexGenerator.generated "/w" sample_tree sample_generator)))
  ∧ IndexGenerator.generate "/w" sample_tree sample_generator
    = ("/r/proj/README.md", sample_text).
Proof.
  split; [reflexivity|].
  destruct (printed_is_headings "/w" sample_tree "/r/proj" "/r/proj/README.md"
              sample_generator) as (Hp & _ & _ & Hw); [reflexivity|].
  split; [exact Hp|]. rewrite Hw. by vm_compute.
Defined.

Lemma index_ignores_the_rest_witness :
  same_index sample_tree sample_tree_shuffled
  ∧ IndexGenerator.generate "/w" sample_tree sample_generator
    = IndexGenerator.generate "/w" sample_tree_shuffled sample_generator.
Proof.
  assert (same_index sample_tree sample_tree_shuffled) as H.
  { unfold sample_tree, sample_tree_shuffled.
    repeat (cbn [same_index];
            match goal with
            | |- _ ∧ _ => split
            | |- True => exact I
            | |- @eq string _ _ => reflexivity
            | |- _ ≡ₚ _ => compute_done
            | |- _ ∈ _ ∨ _ => first [left; compute_done | right]
            end). }
  split; [exact H|].
  by apply (index_ignores_the_rest "/w" sample_tree sample_tree_shuffled
              sample_generator).
Defined.

Lemma index_body_independent_of_root_witness :
  Path.isabs "/w" = true ∧ Path.isabs "/" = true ∧ wf_tree sample_tree = true
  ∧ trace (IndexGenerator.generated "/w" sample_tree sample_generator)
    = trace (IndexGenerator.generated "/" sample_tree
               {| rootDirectory := "/srv/site/docs";
                  outputFile := "/srv/site/docs/README.md";
                  contents := "# docs" +:+ String "010" "";
                  printed := ∅;
                  trace := [] |}).
Proof.
  split; [reflexivity|]. split; [reflexivity|]. split; [by vm_compute|].
  apply (index_body_independent_of_root "/w" "/" "/r/proj" "/srv/site/docs"
           "/r/proj/README.md" "/srv/site/docs/README.md" sample_tree);
    [reflexivity|reflexivity|by vm_compute|reflexivity|reflexivity].
Defined.

Lemma heading_has_a_file_beneath_witness :
  Path.isabs "/w" = true ∧ wf_tree sample_tree = true
  ∧ Heading "empty" 2 "empty"
      ∈ trace (IndexGenerator.generated "/w" sample_tree sample_generator)
  ∧ ∃ q rest, q ≠ [] ∧ rest ≠ [] ∧ "empty" = Str.join "/" q
              ∧ listed sample_tree (q ++ rest).
Proof.
  split; [reflexivity|]. split; [by vm_compute|]. split; [compute_done|].
  apply (heading_has_a_file_beneath "/w" "/r/proj" "/r/proj/README.md"
           sample_tree sample_generator "empty" 2%nat "empty");
    [reflexivity|by vm_compute|reflexivity|compute_done].
Defined.

Lemma no_markdown_no_steps_witness :
  Path.isabs "/w" = true
  ∧ wf_tree (Node [(".github", Node [] ["notes.md"]); ("src", Node [] ["main.py"])]
                  ["README.md"; "LICENSE"]) = true
  ∧ IndexGenerator.generate "/w"
      (Node [(".github", Node [] ["notes.md"]); ("src", Node [] ["main.py"])]
            ["README.md"; "LICENSE"])
      sample_generator
    = ("/r/proj/README.md",
       "# " +:+ Path.basename (Path.normpath "/r/proj") +:+ String "010" ""
       +:+ footer).
Proof.
  split; [reflexivity|]. split; [by vm_compute|].
  apply (no_markdown_no_steps "/w" "/r/proj" "/r/proj/README.md");
    [reflexivity|by vm_compute|reflexivity|].
  intros p Hp.
  inversion Hp as [??? Hf Hmd Hne|??? sub p' He Hex Hp']; subst.
  - apply elem_of_cons in Hf as [->|Hf]; [done|].
    apply list_elem_of_singleton in Hf as ->. by vm_compute in Hmd.
  - apply elem_of_cons in He as [[= -> ->]|He].
    + apply Hex. right. by left.
    + apply list_elem_of_singleton in He as [= -> ->].
      inversion Hp' as [??? Hf Hmd Hne|??? sub' p'' He' _ _]; subst.
      * apply list_elem_of_singleton in Hf as ->. by vm_compute in Hmd.
      * by apply elem_of_nil in He'.
Defined.

Lemma other_extension_dropped_witness :
  String.length ".MD" = 3%nat ∧ ".MD" ≠ ".md"
  ∧ Str.endswith "NOTES.MD" ".MD" = true
  ∧ "NOTES.MD"
    ∉ snd (fst (IndexGenerator._filterDirectory [] ["a.md"; "NOTES.MD"])).
Proof.
  split; [reflexivity|]. split; [done|]. split; [reflexivity|].
  apply (other_extension_dropped [] ["a.md"; "NOTES.MD"] "NOTES.MD" ".MD");
    [reflexivity|done|reflexivity].
Defined.

(** ** The order of the links *)

Section LinkOrder.

Lemma ordered_paths_app vs1 vs2 :
  ordered_paths (vs1 ++ vs2) = ordered_paths vs1 ++ ordered_paths vs2.
Proof. unfold ordered_paths. apply bind_app. Qed.

Lemma ordered_paths_perm vs : ordered_paths vs ≡ₚ all_paths vs.
Proof.
  induction vs as [|v vs IH]; [done|].
  unfold ordered_paths, all_paths in *. rewrite !bind_cons, IH.
  apply Permutation_app_tail. by rewrite sorted_perm.
Qed.

Lemma links_expected_ordered vs : ∀ seen,
  links (expected seen vs) = Str.join "/" <$> ordered_paths vs.
Proof.
  induction vs as [|[segs fs] vs IH]; intros seen; [done|].
  cbn [expected]. rewrite links_app, links_block, IH.
  unfold ordered_paths. rewrite bind_cons, fmap_app. simpl.
  by rewrite <-list_fmap_compose.
Qed.

Lemma elem_of_ordered_visits t segs x :
  x ∈ ordered_paths (visits segs t) ↔ ∃ p, listed t p ∧ x = segs ++ p.
Proof. by rewrite ordered_paths_perm, visits_listed. Qed.

Lemma app_split_later {A} (l1 l2 pre : list A) x post :
  l1 ++ l2 = pre ++ x :: post → x ∉ l1 →
  ∃ m, pre = l1 ++ m ∧ l2 = m ++ x :: post.
Proof.
  intros [(m & -> & _)|H]%app_split_elem Hx; [|done].
  exfalso. apply Hx. apply elem_of_app. right. by left.
Qed.

(** A path that goes on after [q ++ [f]]'s directory [q] through the
    child [n] of [segs] puts [q ++ [f]] under that child as well. *)
Lemma same_child (segs q rest p py : list string) n n' f :
  (2 ≤ length rest)%nat → py ≠ [] →
  q ++ rest = (segs ++ [n]) ++ p →
  q ++ [f] = (segs ++ [n']) ++ py →
  n' = n.
Proof.
  intros Hr Hpy Ex Ey.
  destruct py as [|l py _] using rev_ind; [done|].
  rewrite app_assoc in Ey. apply app_inj_2 in Ey as [-> _]; [|done].
  rewrite <-!app_assoc in Ex. apply app_inv_head in Ex.
  by injection Ex as ->.
Qed.

(** In the order of the links, the files of a directory come before the
    files of the directories beneath it. *)
Lemma own_before_deeper t : ∀ segs pre x post q f rest,
  wf_tree t = true →
  ordered_paths (visits segs t) = pre ++ x :: post →
  x = q ++ rest → (2 ≤ length rest)%nat →
  q ++ [f] ∈ ordered_paths (visits segs t) →
  q ++ [f] ∈ pre.
Proof.
  induction t as [dirs nondirs IH] using Tree_nested_ind.
  intros segs pre x post q f rest Hwf E -> Hr Hy.
  apply wf_tree_node in Hwf as (Hnd & _ & Hsub).
  apply NoDup_app in Hnd as (Hnd & _ & _).
  assert (∃ px, listed (Node dirs nondirs) px ∧ q ++ rest = segs ++ px)
    as (px & Hpx & Ex).
  { apply elem_of_ordered_visits. rewrite E. apply elem_of_app. right. left. }
  assert (length segs ≤ length q)%nat as Hlen.
  { apply elem_of_ordered_visits in Hy as (py & Hpy%listed_nonempty & Ey).
    apply (f_equal length) in Ey. rewrite !length_app in Ey. simpl in Ey.
    destruct py; [done|]. simpl in Ey. lia. }
  cbn [visits] in E, Hy. rewrite ordered_paths_app in E, Hy.
  set (own := ordered_paths _) in E, Hy.
  assert (∀ y, y ∈ own → ∃ f', y = segs ++ [f']) as Hown.
  { intros y. unfold own. case_bool_decide; [|by intros ?%elem_of_nil].
    unfold ordered_paths. simpl. rewrite app_nil_r.
    intros (f' & -> & _)%list_elem_of_fmap. by exists f'. }
  assert (q ++ rest ∉ own) as Hxown.
  { intros (f' & Ef)%Hown. apply (f_equal length) in Ef.
    rewrite !length_app in Ef. simpl in Ef. lia. }
  apply app_split_later in E as (m & -> & E); [|done].
  apply elem_of_app in Hy as [Hy|Hy]; [apply elem_of_app; by left|].
  apply elem_of_app. right.
  clear Hpx own Hown Hxown.
  revert m E Hnd IH Hsub Hy.
  induction dirs as [|[n sub] dirs IHd]; intros m E Hnd IH Hsub Hy.
  { by destruct m. }
  cbn [flat_map map fst] in *. rewrite ordered_paths_app in E, Hy.
  apply NoDup_cons in Hnd as [Hn Hnd].
  apply Forall_cons in IH as [IHsub IH].
  apply Forall_cons in Hsub as [Hsubwf Hsub].
  simpl in IHsub, Hsubwf.
  assert (∀ y, y ∈ ordered_paths
                     (flat_map
                        (λ entry, if bool_decide (fst entry ∉ [".git"; ".github"])
                                  then visits (segs ++ [fst entry]) (snd entry)
                                  else []) dirs) →
               ∃ n' py, n' ∈ map fst dirs ∧ py ≠ [] ∧ y = (segs ++ [n']) ++ py)
    as Hrest.
  { intros y. rewrite ordered_paths_perm.
    intros (v & f' & Hv & Hf' & ->)%elem_of_all_paths.
    apply elem_of_flat_map in Hv as ([n' sub'] & He & Hv). simpl in Hv.
    case_bool_decide; [|by apply elem_of_nil in Hv].
    assert (fst v ++ [f'] ∈ all_paths (visits (segs ++ [n']) sub')) as Hin
      by (apply elem_of_all_paths; by exists v, f').
    apply visits_listed in Hin as (py & Hpy%listed_nonempty & Epy).
    exists n', py. split_and!; [|done..].
    apply list_elem_of_In, in_map_iff. exists (n', sub'). split; [done|].
    by apply list_elem_of_In. }
  apply app_split_elem in E as [(m' & E & _)|(m' & -> & E)].
  - match type of E with
    | ?l = _ => assert (q ++ rest ∈ l) as Hx
        by (rewrite E; apply elem_of_app; right; left)
    end.
    cbn [fst snd] in *.
    case_bool_decide; [|by apply elem_of_nil in Hx].
    apply elem_of_ordered_visits in Hx as (p & _ & Ep).
    apply elem_of_app in Hy as [Hy|Hy].
    + by eapply (IHsub (segs ++ [n]) m (q ++ rest) m' q f rest).
    + apply Hrest in Hy as (n' & py & Hn' & Hpy & Ey).
      exfalso. apply Hn.
      by rewrite <-(same_child segs q rest p py n n' f Hr Hpy Ep Ey).
  - apply elem_of_app in Hy as [Hy|Hy]; [apply elem_of_app; by left|].
    apply elem_of_app. right. by apply IHd.
Qed.

(** X10: the links of the files of a directory come before the links of
    the files that lie beneath it, in its subdirectories: where the steps
    of the run come to the link of a deeper file, the file written is the
    title line, the lines of the steps before, the line of that link, the
    lines of the steps after and the footer, and the link of each file of
    the directory itself is among the steps before. *)
Theorem own_links_before_deeper_links cwd root out t g q f rest pre post :
  Path.isabs cwd = true → wf_tree t = true →
  IndexGenerator.__init__ true root out = inr g →
  listed t (q ++ [f]) → listed t (q ++ rest) → (2 ≤ length rest)%nat →
  trace (IndexGenerator.generated cwd t g)
  = pre ++ Link (Str.join "/" (q ++ rest)) :: post →
  Link (Str.join "/" (q ++ [f])) ∈ pre
  ∧ IndexGenerator.generate cwd t g
    = (out, contents g +:+ index_text pre
            +:+ index_line (Link (Str.join "/" (q ++ rest)))
            +:+ index_text post +:+ footer).
Proof.
  intros Hcwd Hwf Hg Hy Hx Hr E. split.
  2:{ rewrite (written_index cwd root out t g Hcwd Hwf Hg), E.
      rewrite index_text_app. cbn [index_text foldr].
      fold (index_text post). by rewrite !str_app_assoc. }
  destruct (generated_spec cwd root out t g Hcwd Hwf Hg) as (Ht & _ & _).
  rewrite Ht in E. apply (f_equal links) in E.
  rewrite links_expected_ordered, links_app in E. csimpl in E.
  apply fmap_split_elem in E as (l1 & x & l2 & E & Epre & Ex & _).
  assert (x = q ++ rest) as ->.
  { symmetry. apply join_key_inj; [by eapply listed_wf| |done].
    assert (x ∈ ordered_paths (visits [] t)) as Hin
      by (rewrite E; apply elem_of_app; right; left).
    apply elem_of_ordered_visits in Hin as (p & Hp & ->).
    by eapply listed_wf. }
  apply elem_of_links. rewrite Epre. apply list_elem_of_fmap_2.
  eapply (own_before_deeper t [] l1 (q ++ rest) l2 q f rest); [done..|].
  apply elem_of_ordered_visits. by exists (q ++ [f]).
Qed.

Lemma endswith_join_last segs name suffix :
  Str.endswith name suffix = true →
  Str.endswith (Str.join "/" (segs ++ [name])) suffix = true.
Proof.
  intros [p ->]%endswith_spec. apply endswith_spec.
  destruct segs as [|a l]; [by exists p|].
  rewrite join_snoc by done.
  exists (Str.join "/" (a :: l) +:+ "/" +:+ p). by rewrite !str_app_assoc.
Qed.

Lemma startswith_join (segs : list string) a c :
  a ≠ "" →
  Str.startswith_char (Str.join "/" (a :: segs)) c = Str.startswith_char a c.
Proof.
  intros Ha. destruct segs as [|b l]; [done|].
  rewrite join_cons by done. by apply startswith_char_app.
Qed.

(** X11: every link of the index points into the root: its target, split
    at the slashes, is the path of a listed file of the tree, name by
    name, none of the names empty, [.] or [..]; so the target is relative
    and never leaves the root, and it ends in [.md]. *)
Theorem link_targets_stay_inside cwd root out t g file :
  Path.isabs cwd = true → wf_tree t = true →
  IndexGenerator.__init__ true root out = inr g →
  Link file ∈ trace (IndexGenerator.generated cwd t g) →
  (∃ p, listed t p ∧ Str.split "/" file = p ∧ file = Str.join "/" p
        ∧ Forall wf_name p)
  ∧ Path.isabs file = false
  ∧ Str.endswith file ".md" = true
  ∧ index_line (Link file)
    = "- [" +:+ link_text file +:+ "](" +:+ file +:+ ")" +:+ String "010" ""
  ∧ IndexGenerator.generate cwd t g
    = (out, contents g
            +:+ index_text (trace (IndexGenerator.generated cwd t g))
            +:+ footer).
Proof.
  intros Hcwd Hwf Hg.
  pose proof (written_index cwd root out t g Hcwd Hwf Hg) as Hw.
  destruct (generated_spec cwd root out t g Hcwd Hwf Hg) as (Ht & _ & _).
  rewrite Ht in *.
  intros Hin%elem_of_links. rewrite links_expected in Hin.
  apply list_elem_of_fmap in Hin as (q & -> & (p & Hp & ->)%visits_listed).
  change ([] ++ p) with p. pose proof (listed_wf _ _ Hwf Hp) as Hpw.
  destruct (listed_last _ _ Hp) as (segs & name & -> & Hmd & _).
  split_and!; [|  |by apply endswith_join_last|done|done].
  - exists (segs ++ [name]). split_and!; [done| |done|done].
    apply split_join; [by destruct segs|by apply wf_name_slash_free].
  - unfold Path.isabs.
    destruct segs as [|a l].
    + inversion_clear Hpw as [|?? Hn _]. by apply wf_name_start.
    + inversion_clear Hpw as [|?? Ha _].
      change ((a :: l) ++ [name]) with (a :: (l ++ [name])).
      rewrite startswith_join by by destruct Ha.
      by apply wf_name_start.
Qed.

End LinkOrder.

Lemma own_links_before_deeper_links_witness :
  Path.isabs "/w" = true ∧ wf_tree sample_tree = true
  ∧ listed sample_tree (["docs"] ++ ["x.md"])
  ∧ listed sample_tree (["docs"] ++ ["api"; "a.md"])
  ∧ Link (Str.join "/" (["docs"] ++ ["x.md"]))
      ∈ [Visit "."; Link "a.b.md"; Link "b.md";
         Visit "docs"; Heading "docs" 2 "docs"; Link "docs/x.md";
         Visit "docs/api"; Heading "docs/api" 3 "api"]
  ∧ IndexGenerator.generate "/w" sample_tree sample_generator
    = ("/r/proj/README.md", sample_text).
Proof.
  assert (listed sample_tree (["docs"] ++ ["x.md"])) as Hf.
  { eapply listed_sub; [by left|compute_done|].
    apply listed_file; [compute_done|reflexivity|done]. }
  assert (listed sample_tree (["docs"] ++ ["api"; "a.md"])) as Hd.
  { eapply listed_sub; [by left|compute_done|].
    eapply listed_sub; [by left|compute_done|].
    apply listed_file; [compute_done|reflexivity|done]. }
  split; [reflexivity|]. split; [by vm_compute|]. split; [done|]. split; [done|].
  destruct (own_links_before_deeper_links "/w" "/r/proj" "/r/proj/README.md"
           sample_tree sample_generator ["docs"] "x.md" ["api"; "a.md"]
           [Visit "."; Link "a.b.md"; Link "b.md";
            Visit "docs"; Heading "docs" 2 "docs"; Link "docs/x.md";
            Visit "docs/api"; Heading "docs/api" 3 "api"]
           [Link "docs/api/z.md";
            Visit "empty/deep"; Heading "empty" 2 "empty";
            Heading "empty/deep" 3 "deep"; Link "empty/deep/.md"])
    as [Hin Hw];
    [reflexivity|by vm_compute|reflexivity|done|done|simpl; lia|by vm_compute|].
  split; [exact Hin|]. rewrite Hw. by vm_compute.
Defined.

Lemma link_targets_stay_inside_witness :
  Path.isabs "/w" = true ∧ wf_tree sample_tree = true
  ∧ Link "docs/api/a.md"
      ∈ trace (IndexGenerator.generated "/w" sample_tree sample_generator)
  ∧ (∃ p, listed sample_tree p ∧ Str.split "/" "docs/api/a.md" = p
          ∧ "docs/api/a.md" = Str.join "/" p ∧ Forall wf_name p)
  ∧ Path.isabs "docs/api/a.md" = false
  ∧ Str.endswith "docs/api/a.md" ".md" = true
  ∧ IndexGenerator.generate "/w" sample_tree sample_generator
    = ("/r/proj/README.md", sample_text).
Proof.
  split; [reflexivity|]. split; [by vm_compute|]. split; [compute_done|].
  destruct (link_targets_stay_inside "/w" "/r/proj" "/r/proj/README.md"
              sample_tree sample_generator "docs/api/a.md")
    as (Hp & Habs & Hmd & _ & Hw);
    [reflexivity|by vm_compute|reflexivity|compute_done|].
  split_and!; [exact Hp|exact Habs|exact Hmd|]. rewrite Hw. by vm_compute.
Defined.

(** ** The root directory and the title *)

Section Title.

(** The components [normpath] keeps of an absolute path are names. *)
Lemma normpath_comps_wf p :
  Path.isabs p = true → Forall wf_name (Path.normpath_comps p).
Proof.
  intros Habs. unfold Path.normpath_comps.
  assert (Path.normpath_slashes p ≠ 0%nat) as Hk.
  { unfold Path.normpath_slashes. unfold Path.isabs in Habs. rewrite Habs.
    repeat case_match; done. }
  pose proof (split_pieces Path.sep p) as Hp.
  cut (∀ acc, Forall wf_name acc →
         Forall wf_name
           (fold_left (Path.normpath_step (Path.normpath_slashes p))
              (Str.split Path.sep p) acc)).
  { intros H. apply H. constructor. }
  induction Hp as [|c cs Hc _ IH]; intros acc Hacc; [done|].
  simpl. apply IH. unfold Path.normpath_step.
  case_bool_decide as E1; [done|].
  case_bool_decide as E2.
  - apply Forall_app. split; [done|]. constructor; [|done].
    destruct E2 as [E2|[[E2 _]|[Hne Hl]]]; [|done|].
    + split_and!; [| |done..].
      * intros ->. apply E1. by left.
      * intros ->. apply E1. by right.
    + exfalso. destruct acc as [|x acc _] using rev_ind; [done|].
      rewrite last_snoc in Hl. injection Hl as ->.
      apply Forall_app in Hacc as [_ Hx].
      by inversion Hx as [|?? (_ & _ & ? & _) _].
  - destruct acc as [|a acc _] using rev_ind; [done|].
    rewrite removelast_last. by apply Forall_app in Hacc as [? _].
Qed.

(** The normal form of an absolute path: one or two slashes, then the
    components. *)
Lemma normpath_abs p :
  Path.isabs p = true →
  ∃ k, (k ≤ 1)%nat ∧ Path.normpath_slashes p = S k
       ∧ Path.normpath p
         = Str.repeat "/" (S k) +:+ Str.join "/" (Path.normpath_comps p).
Proof.
  intros Habs. unfold Path.normpath.
  destruct p as [|a p]; [done|].
  assert (∃ k, (k ≤ 1)%nat ∧ Path.normpath_slashes (String a p) = S k)
    as (k & Hk1 & Hk).
  { unfold Path.normpath_slashes. unfold Path.isabs in Habs. rewrite Habs.
    repeat case_match; first [by exists 0%nat; split; [lia|] | by exists 1%nat]. }
  exists k. split; [done|]. split; [done|]. rewrite Hk.
  by assert (String.eqb (String a p) "" = false) as -> by done.
Qed.

Lemma normpath_fold_names k cs : ∀ acc,
  Forall wf_name cs →
  fold_left (Path.normpath_step k) cs acc = acc ++ cs.
Proof.
  induction cs as [|c cs IH]; intros acc Hcs; [by rewrite app_nil_r|].
  inversion_clear Hcs as [|?? Hc Hcs']. cbn [fold_left].
  rewrite normpath_step_name by done. rewrite IH by done.
  by rewrite <-app_assoc.
Qed.

Lemma normpath_fold_empty k n acc :
  fold_left (Path.normpath_step k) (replicate n "") acc = acc.
Proof.
  induction n as [|n IH]; [done|]. cbn [replicate fold_left].
  by rewrite normpath_step_empty.
Qed.

Lemma join_names_head cs :
  Forall wf_name cs → cs ≠ [] →
  ∃ x rest, Str.join "/" cs = String x rest ∧ Ascii.eqb x "/" = false.
Proof.
  intros Hcs Hne. destruct cs as [|c cs]; [done|].
  inversion_clear Hcs as [|?? (Hc & _ & _ & Hs) _].
  destruct c as [|x c]; [done|]. cbn [has_char] in Hs.
  apply orb_false_iff in Hs as [Hx _].
  destruct cs as [|c' cs].
  - by exists x, c.
  - rewrite join_cons by done. rewrite str_app_cons. by eexists _, _.
Qed.

(** A path in normal form is its own normal form. *)
Lemma normpath_normal k cs :
  (k ≤ 1)%nat → Forall wf_name cs → cs ≠ [] →
  Path.normpath (Str.repeat "/" (S k) +:+ Str.join "/" cs)
  = Str.repeat "/" (S k) +:+ Str.join "/" cs.
Proof.
  intros Hk Hcs Hne.
  set (r := Str.repeat "/" (S k) +:+ Str.join "/" cs).
  assert (Path.normpath_slashes r = S k) as Hs.
  { destruct (join_names_head cs Hcs Hne) as (x & rest & E & Hx).
    unfold r. rewrite E. unfold Path.normpath_slashes, Path.sep.
    destruct k as [|[|k]]; [| |lia].
    - cbn [Str.repeat]. rewrite !str_app_cons, str_app_nil_l.
      cbn [Str.startswith_char]. rewrite Ascii.eqb_refl.
      destruct rest; by rewrite Hx.
    - cbn [Str.repeat]. rewrite !str_app_cons, str_app_nil_l.
      cbn [Str.startswith_char]. by rewrite !Ascii.eqb_refl, Hx. }
  assert (Path.normpath_comps r = cs) as Hc.
  { unfold Path.normpath_comps. rewrite Hs. unfold r, Path.sep.
    rewrite split_repeat_sep, split_join by (done || by apply wf_name_slash_free).
    by rewrite fold_left_app, normpath_fold_empty, normpath_fold_names. }
  destruct (normpath_abs r) as (k' & _ & Hk' & ->); [done|].
  rewrite Hs in Hk'. injection Hk' as <-. by rewrite Hc.
Qed.

(** The root directory the program works with, when it is given a
    relative path of names. *)
Lemma root_of_names cwd names :
  Path.isabs cwd = true → Forall wf_name names → names ≠ [] →
  ∃ k, (k ≤ 1)%nat
       ∧ Path.abspath cwd (Str.join "/" names)
         = Str.repeat "/" (S k)
           +:+ Str.join "/" (Path.normpath_comps cwd ++ names).
Proof.
  intros Hcwd Hn Hne. destruct names as [|a p]; [done|].
  rewrite <-join_names by done. rewrite abspath_abs_arg.
  inversion Hn as [|?? Ha Hp]; subst.
  rewrite abs_arg_join by done.
  assert (abs_arg cwd a = Path.join_step cwd a) as ->.
  { unfold abs_arg, Path.isabs. by rewrite (wf_name_start a Ha). }
  change (Path.join (Path.join_step cwd a) p) with (Path.join cwd (a :: p)).
  destruct (normpath_comps_join_list cwd (a :: p) Hn) as [Hc Hs].
  destruct (normpath_abs (Path.join cwd (a :: p))) as (k & Hk & _ & ->).
  { rewrite <-(abs_arg_isabs cwd (Path.join a p) Hcwd).
    rewrite abs_arg_join by done. unfold abs_arg, Path.isabs.
    by rewrite (wf_name_start a Ha). }
  exists k. by rewrite Hc.
Qed.

(** The title and the output file of a root in normal form. *)
Lemma normal_root k cs name :
  (k ≤ 1)%nat → Forall wf_name (cs ++ [name]) →
  let root := Str.repeat "/" (S k) +:+ Str.join "/" (cs ++ [name]) in
  Path.basename (Path.normpath root) = name
  ∧ Path.join root ["README.md"] = root +:+ "/README.md".
Proof.
  intros Hk Hall root. subst root.
  apply Forall_app in Hall as Hn'. destruct Hn' as [_ Hname].
  inversion_clear Hname as [|?? (Hne & _ & _ & Hslash) _].
  assert (∃ pre, Str.repeat "/" (S k) +:+ Str.join "/" (cs ++ [name])
                 = pre +:+ "/" +:+ name) as [pre Epre].
  { destruct cs as [|c cs'].
    - destruct k as [|[|k]]; [by exists ""|by exists "/"|lia].
    - rewrite join_snoc by done.
      exists (Str.repeat "/" (S k) +:+ Str.join "/" (c :: cs')).
      by rewrite !str_app_assoc. }
  split.
  - rewrite normpath_normal by (done || by destruct cs).
    rewrite Epre. by apply basename_join.
  - rewrite Epre. unfold Path.join. cbn [fold_left].
    unfold Path.join_step, Path.sep. cbn [Str.startswith_char].
    assert (Ascii.eqb "R" "/" = false) as -> by done.
    assert (String.eqb (pre +:+ "/" +:+ name) "" = false) as ->.
    { apply String.eqb_neq. intros [_ [? _]%str_app_eq_nil]%str_app_eq_nil.
      done. }
    rewrite <-str_app_assoc, endswith_char_app by done.
    destruct (Str.endswith name "/") eqn:E.
    { apply endswith_char_has in E. congruence. }
    cbn [orb]. by rewrite !str_app_assoc.
Qed.

Lemma root_shape cwd segs name :
  Path.isabs cwd = true → Forall wf_name (segs ++ [name]) →
  let root := Path.abspath cwd (Str.join "/" (segs ++ [name])) in
  Path.basename (Path.normpath root) = name
  ∧ Path.join root ["README.md"] = root +:+ "/README.md".
Proof.
  intros Hcwd Hn root.
  destruct (root_of_names cwd (segs ++ [name]) Hcwd Hn) as (k & Hk & Hroot);
    [by destruct segs|].
  fold root in Hroot. clearbody root. subst root.
  rewrite app_assoc. apply normal_root; [done|].
  rewrite <-app_assoc. apply Forall_app. split; [|done].
  by apply normpath_comps_wf.
Qed.

(** In a working directory in normal form, [.] is the working directory. *)
Lemma abspath_dot cs name :
  Forall wf_name (cs ++ [name]) →
  Path.abspath ("/" +:+ Str.join "/" (cs ++ [name])) "."
  = "/" +:+ Str.join "/" (cs ++ [name]).
Proof.
  intros Hall.
  assert (cs ++ [name] ≠ []) as Hne by by destruct cs.
  destruct (join_names_head _ Hall Hne) as (x & rest & E & Hx).
  set (cwd := "/" +:+ Str.join "/" (cs ++ [name])).
  assert (Path.join cwd ["."] = cwd +:+ String "/" ".") as Hj.
  { destruct (normal_root 0 cs name) as [_ Hr]; [lia|done|].
    cbn [Str.repeat] in Hr. fold cwd in Hr.
    unfold Path.join in *. cbn [fold_left] in *.
    unfold Path.join_step, Path.sep in *. cbn [Str.startswith_char] in *.
    assert (Ascii.eqb "R" "/" = false) as HR by done. rewrite HR in Hr.
    assert (Ascii.eqb "." "/" = false) as -> by done.
    destruct (String.eqb cwd "" || Str.endswith cwd "/").
    - apply (f_equal String.length) in Hr.
      rewrite !str_app_length in Hr. simpl in Hr. lia.
    - done. }
  unfold Path.abspath. assert (Path.isabs "." = false) as -> by done.
  rewrite Hj.
  set (X := cwd +:+ String "/" ".").
  assert (Path.normpath_slashes X = 1%nat) as Hs.
  { unfold X, cwd. rewrite E. unfold Path.normpath_slashes, Path.sep.
    repeat (rewrite str_app_cons || rewrite str_app_nil_l).
    cbn [Str.startswith_char]. rewrite Ascii.eqb_refl.
    destruct rest; [rewrite str_app_nil_l|rewrite str_app_cons]; by rewrite Hx. }
  assert (Path.normpath_comps X = cs ++ [name]) as Hc.
  { unfold Path.normpath_comps. rewrite Hs. unfold X, cwd, Path.sep.
    change ("/" +:+ ?s) with (Str.repeat "/" 1 +:+ s).
    rewrite str_app_assoc, split_repeat_sep, split_app_sep.
    rewrite split_join by (done || by apply wf_name_slash_free).
    rewrite (fold_left_app _ (replicate 1 "")), (fold_left_app _ (cs ++ [name])).
    rewrite normpath_fold_empty.
    by rewrite (normpath_fold_names _ (cs ++ [name])) by done. }
  destruct (normpath_abs X) as (k' & _ & Hk' & ->); [done|].
  rewrite Hs in Hk'. injection Hk' as <-. by rewrite Hc.
Qed.

End Title.

(** X12: run on a directory given as a relative path of names, a run that
    can open the [README.md] of that directory and encode its text writes
    this file, and the title is the last name of the path. *)
Theorem title_is_directory_name cwd t segs name g :
  Path.isabs cwd = true → Forall wf_name (segs ++ [name]) →
  let root := Path.abspath cwd (Str.join "/" (segs ++ [name])) in
  IndexGenerator.__init__ true root (Path.join root ["README.md"]) = inr g →
  "README.md" ∉ map fst (subdirs t) →
  Str.encodable (snd (IndexGenerator.generate cwd t g)) = true →
  main cwd (Some t) (Some (Str.join "/" (segs ++ [name])))
  = {| stdout := ""; stderr := ""; exit_status := 0;
       written :=
         [(root +:+ "/README.md",
           "# " +:+ name +:+ String "010" ""
           +:+ render (trace (IndexGenerator.generated cwd t g))
           +:+ footer)];
       uncaught := None |}.
Proof.
  intros Hcwd Hn root Hg Hdir Henc.
  destruct (root_shape cwd segs name Hcwd Hn) as [Hb Ho]. fold root in Hb, Ho.
  rewrite (main_run cwd t (Some (Str.join "/" (segs ++ [name]))) g Hg Hdir Henc).
  rewrite (generate_any cwd t _ _ g Hg).
  apply init_exists in Hg as ->. cbn [contents].
  by rewrite Hb, Ho, !str_app_assoc.
Qed.

Lemma title_is_directory_name_witness :
  Path.isabs "/w" = true ∧ Forall wf_name (["docs"] ++ ["api"])
  ∧ ("README.md" ∉ map fst (subdirs sample_tree))
  ∧ main "/w" (Some sample_tree) (Some (Str.join "/" (["docs"] ++ ["api"])))
    = {| stdout := ""; stderr := ""; exit_status := 0;
         written :=
           [("/w/docs/api/README.md",
             "# api" +:+ String "010" ""
             +:+ render (trace (IndexGenerator.generated "/w" sample_tree
                                  {| rootDirectory := "/w/docs/api";
                                     outputFile := "/w/docs/api/README.md";
                                     contents := "# api" +:+ String "010" "";
                                     printed := ∅; trace := [] |}))
             +:+ footer)];
         uncaught := None |}.
Proof.
  split; [reflexivity|]. split; [by repeat constructor|]. split; [compute_done|].
  rewrite (title_is_directory_name "/w" sample_tree ["docs"] "api"
             {| rootDirectory := "/w/docs/api";
                outputFile := "/w/docs/api/README.md";
                contents := "# api" +:+ String "010" "";
                printed := ∅; trace := [] |});
    [by vm_compute|reflexivity|by repeat constructor|reflexivity|compute_done
    |by vm_compute].
Defined.

(** X13: run without an argument in a working directory [/segs/name], a run
    that can open the [README.md] of the working directory and encode its
    text writes this file, and the title is the name of the working
    directory. *)
Theorem no_argument_indexes_working_directory t segs name g :
  Forall wf_name (segs ++ [name]) →
  let cwd := "/" +:+ Str.join "/" (segs ++ [name]) in
  IndexGenerator.__init__ true cwd (Path.join cwd ["README.md"]) = inr g →
  "README.md" ∉ map fst (subdirs t) →
  Str.encodable (snd (IndexGenerator.generate cwd t g)) = true →
  main cwd (Some t) None
  = {| stdout := ""; stderr := ""; exit_status := 0;
       written :=
         [(cwd +:+ "/README.md",
           "# " +:+ name +:+ String "010" ""
           +:+ render (trace (IndexGenerator.generated cwd t g))
           +:+ footer)];
       uncaught := None |}.
Proof.
  intros Hn cwd Hg Hdir Henc.
  destruct (normal_root 0 segs name) as [Hb Ho]; [lia|done|].
  cbn [Str.repeat] in Hb, Ho. fold cwd in Hb, Ho.
  assert (Path.abspath cwd (default "." None) = cwd) as Hroot
    by by apply abspath_dot.
  rewrite (main_run cwd t None g); [|by rewrite Hroot|done|done].
  rewrite (generate_any cwd t _ _ g Hg).
  apply init_exists in Hg as ->. cbn [contents].
  by rewrite Hb, Ho, !str_app_assoc.
Qed.

Lemma no_argument_indexes_working_directory_witness :
  Forall wf_name (["r"] ++ ["proj"])
  ∧ ("README.md" ∉ map fst (subdirs sample_tree))
  ∧ main ("/" +:+ Str.join "/" (["r"] ++ ["proj"])) (Some sample_tree) None
    = {| stdout := ""; stderr := ""; exit_status := 0;
         written := [("/r/proj/README.md", sample_text)];
         uncaught := None |}.
Proof.
  split; [by repeat constructor|]. split; [compute_done|].
  rewrite (no_argument_indexes_working_directory sample_tree ["r"] "proj"
             sample_generator);
    [by vm_compute|by repeat constructor|reflexivity|compute_done|by vm_compute].
Defined.
